(** * NSEC3 denial-of-existence verification (nsec.go)

    A shallow embedding of [nsec.go] of the solvere resolver and the
    properties of its closest-encloser search, its record scans and its
    three proof verifiers (RFC 5155, Section 8).

    Strings are Go strings, that is byte sequences: [string] of the
    standard library, whose characters are 8-bit.  A [uint16] or [uint8]
    is a [Z].  A Go function that may panic returns an [outcome]; a Go
    [error] value is an [option error], [None] being [nil]. *)

From Stdlib Require Import ZArith String Ascii List Bool Lia.
From stdpp Require Import base option list gmap.
Import ListNotations.

Local Open Scope string_scope.
Local Open Scope list_scope.
Local Open Scope Z_scope.

(** ** Panics *)

(** The result of running a Go function: it returns a value or panics. *)
Inductive outcome (A : Type) : Type :=
  | Ret (a : A)
  | Panic.
Arguments Ret {A} a.
Arguments Panic {A}.

#[global] Instance outcome_ret : MRet outcome := fun A a => Ret a.
#[global] Instance outcome_bind : MBind outcome := fun A B k m =>
  match m with
  | Ret a => k a
  | Panic => Panic
  end.

Definition returns {A : Type} (m : outcome A) : Prop := exists a, m = Ret a.

(** ** The error values of nsec.go, lines 11-19 *)

Inductive error : Set :=
  | ErrNSECMismatch
  | ErrNSECTypeExists
  | ErrNSECMultipleCoverage
  | ErrNSECMissingCoverage
  | ErrNSECBadDelegation
  | ErrNSECNSMissing
  | ErrNSECOptOut.

(** ** Go strings *)

(** [s[k:]] for [k <= len(s)]. *)
Fixpoint string_drop (k : nat) (s : string) : string :=
  match k, s with
  | O, _ => s
  | S k', String _ s' => string_drop k' s'
  | S _, EmptyString => EmptyString
  end.

(** The slice expression [s[k:]]: it panics when [k] is past the end. *)
Definition slice_from (s : string) (k : nat) : outcome string :=
  if (k <=? String.length s)%nat then Ret (string_drop k s) else Panic.

(** ** Package github.com/miekg/dns

    nsec.go imports the DNS library, which is no part of the repository;
    what nsec.go uses of it is embedded here after the package.  [Split]
    and [NextLabel] are its label functions (labels.go).  The package
    documents [Split] so: it splits a name into its label indexes,
    "www.miek.nl." returns 0, 4, 9, "www.miek.nl" also returns 0, 4, 9, and
    the root name "." returns [nil].  A dot preceded by an odd number of
    backslashes is escaped and starts no label.  The type codes are those
    of the DNS (RFC 1035, RFC 4034). *)

Module dns.

Definition TypeNS : Z := 2.
Definition TypeCNAME : Z := 5.
Definition TypeSOA : Z := 6.
Definition TypeDS : Z := 43.

(** The fields of [dns.NSEC3]; [Hdr_Name] is the owner name of the
    record's header. *)
Record NSEC3 : Type := {
  Hdr_Name : string;
  Hash : Z;
  Flags : Z;
  Iterations : Z;
  Salt : string;
  NextDomain : string;
  TypeBitMap : list Z
}.

(** [dns.RR] is an interface; the scans assert that a value of it is a
    pointer to [dns.NSEC3].  Any other record is kept with its type code only. *)
Inductive RR : Type :=
  | RR_NSEC3 (n : NSEC3)
  | RR_other (rrtype : Z).

(** The type assertion of [rr] to a pointer to [dns.NSEC3], which
    panics on any other dynamic type. *)
Definition assert_NSEC3 (rr : RR) : outcome NSEC3 :=
  match rr with
  | RR_NSEC3 n => Ret n
  | RR_other _ => Panic
  end.

(** The number of backslashes that end at [s[m-1]]: the loop
    [for j >= 0 && s[j] == '\\' { j-- }] of [NextLabel], with [m = j+1]. *)
Fixpoint backslash_run (s : string) (m : nat) : nat :=
  match m with
  | O => O
  | S j =>
      match String.get j s with
      | Some c => if Ascii.eqb c "\" then S (backslash_run s j) else O
      | None => O
      end
  end.

(** The loop [for i = offset; i < len(s)-1; i++] of [NextLabel]; [n] is
    the number of iterations left, [len(s)-1-i], so that [s[i]] exists.  A
    dot is skipped when [(j-i)%2 == 0], [j] being the index before the
    backslashes that end at [s[i-1]]. *)
Fixpoint NextLabel_loop (s : string) (n i : nat) : nat * bool :=
  match n with
  | O => ((i + 1)%nat, true)
  | S n' =>
      match String.get i s with
      | Some c =>
          if negb (Ascii.eqb c ".") then NextLabel_loop s n' (S i)
          else if Nat.even (S (backslash_run s i)) then NextLabel_loop s n' (S i)
          else ((i + 1)%nat, false)
      | None => NextLabel_loop s n' (S i)
      end
  end.

Definition NextLabel (s : string) (offset : nat) : nat * bool :=
  if String.eqb s "" then (O, true)
  else NextLabel_loop s (String.length s - 1 - offset) offset.

(** The loop of [Split]; it ends when [NextLabel] reports the end of the
    name, and every other turn moves [off] forward, so [fuel] turns are
    enough once [fuel] is the length of the name ([Split_loop_fuel]). *)
Fixpoint Split_loop (fuel : nat) (s : string) (idx : list nat) (off : nat)
  : list nat :=
  match fuel with
  | O => idx
  | S fuel' =>
      let '(off', fin) := NextLabel s off in
      if fin then idx else Split_loop fuel' s (idx ++ [off']) off'
  end.

Definition Split (s : string) : list nat :=
  if String.eqb s "." then [] else Split_loop (String.length s) s [O] O.

End dns.
Import dns.

(** [Match] and [Cover] are methods of [dns.NSEC3]: they hash the name
    with the parameters of the record and compare the hash with the
    owner name, respectively with the interval from the owner name to
    [NextDomain].  The hash is outside nsec.go, so the two methods are
    taken as they are. *)
Class NSEC3Methods : Type := {
  Match : NSEC3 -> string -> bool;
  Cover : NSEC3 -> string -> bool
}.

(** ** nsec.go *)

(** Modelled from the spec: the [Question] struct, which nsec.go uses and
    another file of the package declares; the spec gives it a name, a
    domain name in presentation form, and a type, a 16-bit record type
    code.  ([Type] is reserved, hence [Type'].)  The verifiers take a
    pointer to it and read its two fields. *)
Record Question : Type := {
  Name : string;
  Type' : Z
}.

(** [labelIndices[i]]: indexing a slice panics out of range. *)
Definition index (l : list nat) (i : nat) : outcome nat :=
  match l !! i with
  | Some k => Ret k
  | None => Panic
  end.

(** The second loop of [typesSet], over [set], with the map [tm] built. *)
Fixpoint typesSet_scan (tm : gmap Z unit) (set : list Z) : bool :=
  match set with
  | [] => false
  | t :: set' =>
      match tm !! t with
      | Some _ => true
      | None => typesSet_scan tm set'
      end
  end.

(** [typesSet(set, types...)], lines 21-32. *)
Definition typesSet (set : list Z) (types : list Z) : bool :=
  let tm : gmap Z unit := foldl (fun tm t => <[t := tt]> tm) ∅ types in
  typesSet_scan tm set.

Section nsec.

Context `{NSEC3Methods}.

(** [findMatching], lines 54-62. *)
Fixpoint findMatching (name : string) (nsec : list RR)
  : outcome (list Z * option error) :=
  match nsec with
  | [] => Ret ([], Some ErrNSECMissingCoverage)
  | rr :: nsec' =>
      n ← assert_NSEC3 rr;
      if Match n name then Ret (TypeBitMap n, None)
      else findMatching name nsec'
  end.

(** [findCoverer], lines 64-72. *)
Fixpoint findCoverer (name : string) (nsec : list RR)
  : outcome (list Z * bool * option error) :=
  match nsec with
  | [] => Ret ([], false, Some ErrNSECMissingCoverage)
  | rr :: nsec' =>
      n ← assert_NSEC3 rr;
      if Cover n name then Ret (TypeBitMap n, Z.land (Flags n) 1 =? 1, None)
      else findCoverer name nsec'
  end.

(** The loop of [findClosestEncloser], lines 40-50, at counter [i] with
    [n = len(labelIndices) - i] turns left. *)
Fixpoint findClosestEncloser_loop (name : string) (labelIndices : list nat)
    (nsec : list RR) (n i : nat) : outcome (string * string) :=
  match n with
  | O => Ret ("", "")
  | S n' =>
      k ← index labelIndices i;
      z ← slice_from name k;
      '(_, err) ← findMatching z nsec;
      match err with
      | Some _ => findClosestEncloser_loop name labelIndices nsec n' (S i)
      | None =>
          nc ← (if negb (i =? 0)%nat
                then k' ← index labelIndices (i - 1); slice_from name k'
                else Ret name);
          Ret (z, nc)
      end
  end.

(** [findClosestEncloser], lines 36-52. *)
Definition findClosestEncloser (name : string) (nsec : list RR)
  : outcome (string * string) :=
  let labelIndices := Split name in
  findClosestEncloser_loop name labelIndices nsec (length labelIndices) O.

(** [verifyNameError], lines 75-85. *)
Definition verifyNameError (q : Question) (nsec : list RR)
  : outcome (option error) :=
  '(ce, _) ← findClosestEncloser (Name q) nsec;
  if String.eqb ce "" then Ret (Some ErrNSECMissingCoverage)
  else
    '(_, _, err) ← findCoverer (String.append "*." ce) nsec;
    match err with
    | Some e => Ret (Some e)
    | None => Ret None
    end.

(** [verifyNODATA], lines 89-131. *)
Definition verifyNODATA (q : Question) (nsec : list RR)
  : outcome (option error) :=
  '(types, err) ← findMatching (Name q) nsec;
  match err with
  | Some e =>
      if negb (Type' q =? TypeDS) then Ret (Some e)
      else
        '(ce, nc) ← findClosestEncloser (Name q) nsec;
        if String.eqb ce "" then Ret (Some ErrNSECMissingCoverage)
        else
          '(_, optOut, err) ← findCoverer nc nsec;
          match err with
          | Some e => Ret (Some e)
          | None => if negb optOut then Ret (Some ErrNSECOptOut) else Ret None
          end
  | None =>
      if typesSet types [Type' q; TypeCNAME] then Ret (Some ErrNSECTypeExists)
      else Ret None
  end.

(** [verifyDelegation], lines 138-161. *)
Definition verifyDelegation (delegation : string) (nsec : list RR)
  : outcome (option error) :=
  '(types, err) ← findMatching delegation nsec;
  match err with
  | Some _ =>
      '(ce, nc) ← findClosestEncloser delegation nsec;
      if String.eqb ce "" then Ret (Some ErrNSECMissingCoverage)
      else
        '(_, optOut, err) ← findCoverer nc nsec;
        match err with
        | Some e => Ret (Some e)
        | None => if negb optOut then Ret (Some ErrNSECOptOut) else Ret None
        end
  | None =>
      if negb (typesSet types [TypeNS]) then Ret (Some ErrNSECNSMissing)
      else if typesSet types [TypeDS; TypeSOA] then Ret (Some ErrNSECBadDelegation)
      else Ret None
  end.

(** The opt-out path of RFC 5155, Section 8.6, which [verifyNODATA]
    (lines 98-109) and [verifyDelegation] (lines 141-152) both take when
    no record matches the name. *)
Definition optOutPath (name : string) (nsec : list RR)
  : outcome (option error) :=
  '(ce, nc) ← findClosestEncloser name nsec;
  if String.eqb ce "" then Ret (Some ErrNSECMissingCoverage)
  else
    '(_, optOut, err) ← findCoverer nc nsec;
    match err with
    | Some e => Ret (Some e)
    | None => if negb optOut then Ret (Some ErrNSECOptOut) else Ret None
    end.

End nsec.

(** ** Record sets and the label path *)

(** A record set of the data model: a sequence of NSEC3 records, as the
    slice of [dns.RR] values the functions take. *)
Definition rrs (ns : list NSEC3) : list RR := map RR_NSEC3 ns.

Definition is_NSEC3 (rr : RR) : Prop :=
  match rr with
  | RR_NSEC3 _ => True
  | RR_other _ => False
  end.

(** The opt-out flag of a record: the lowest bit of its flags field
    (RFC 5155, Section 3.1.2). *)
Definition optOutFlag (n : NSEC3) : bool := Z.testbit (Flags n) 0.

(** The candidates of the closest-encloser search, in the order of the
    search: the suffixes of the name at its label offsets. *)
Definition labelPath (name : string) : list string :=
  (fun k => string_drop k name) <$> Split name.

(** The next closer name when the closest encloser is candidate [i]: the
    candidate before it, and the name itself for the first candidate. *)
Definition nextCloser (name : string) (i : nat) : string :=
  match i with
  | O => name
  | S j => default name (labelPath name !! j)
  end.

Section spec.

Context `{NSEC3Methods}.

(** Some record of the set matches, respectively covers, the name. *)
Definition matched (name : string) (ns : list NSEC3) : bool :=
  existsb (fun n => Match n name) ns.
Definition covered (name : string) (ns : list NSEC3) : bool :=
  existsb (fun n => Cover n name) ns.

(** The first record, in the order of the set, that matches, respectively
    covers, the name. *)
Definition firstMatch (name : string) (ns : list NSEC3) : option NSEC3 :=
  List.find (fun n => Match n name) ns.
Definition firstCover (name : string) (ns : list NSEC3) : option NSEC3 :=
  List.find (fun n => Cover n name) ns.

(** Candidate [i] of the label path of [name] is [ce], some record
    matches it, and no record matches a candidate before it. *)
Definition closestEncloserAt (name : string) (ns : list NSEC3) (i : nat)
    (ce : string) : Prop :=
  labelPath name !! i = Some ce /\
  matched ce ns = true /\
  forall j z, (j < i)%nat -> labelPath name !! j = Some z -> matched z ns = false.

(** No record matches any candidate of the label path. *)
Definition noEncloser (name : string) (ns : list NSEC3) : Prop :=
  forall z, In z (labelPath name) -> matched z ns = false.

End spec.

(** The results a verifier may give. *)
Definition possible_results : list (outcome (option error)) :=
  [Ret None; Ret (Some ErrNSECMissingCoverage); Ret (Some ErrNSECTypeExists);
   Ret (Some ErrNSECOptOut); Ret (Some ErrNSECNSMissing);
   Ret (Some ErrNSECBadDelegation)].

(** A call that never yields [ErrNSECMismatch] or
    [ErrNSECMultipleCoverage]: it panics or gives a possible result. *)
Definition never_raised (v : outcome (option error)) : Prop :=
  v <> Ret (Some ErrNSECMismatch)
  /\ v <> Ret (Some ErrNSECMultipleCoverage)
  /\ (v = Panic \/ In v possible_results).

(** ** Definitions for the proofs *)

(** The offsets that [Split_loop] appends to [idx]. *)
Fixpoint Split_tail (fuel : nat) (s : string) (off : nat) : list nat :=
  match fuel with
  | O => []
  | S fuel' =>
      let '(off', fin) := NextLabel s off in
      if fin then [] else off' :: Split_tail fuel' s off'
  end.

Ltac pick_result :=
  first [ left; reflexivity | right; pick_result ].

(** ** A test double for the hash

    The identity hash: a record matches the name that is its owner name,
    and covers the names strictly between its owner name and its
    [NextDomain] in the order of strings. *)
Definition plain : NSEC3Methods := {|
  Match := fun n name => String.eqb (Hdr_Name n) name;
  Cover := fun n name =>
    String.ltb (Hdr_Name n) name && String.ltb name (NextDomain n)
|}.

(** An NSEC3 record with the given owner name, next name, flags and
    type bitmap. *)
Definition nsec3 (owner next : string) (flags : Z) (types : list Z) : NSEC3 := {|
  Hdr_Name := owner; Hash := 1; Flags := flags; Iterations := 0; Salt := "";
  NextDomain := next; TypeBitMap := types
|}.

(** ** Record sets of the examples *)

(** A zone that holds "example." only. *)
Definition ns_example : list NSEC3 :=
  [nsec3 "example." "f" 0 [TypeNS; TypeSOA]].

(** A set whose only record is that of the root name. *)
Definition ns_root : list NSEC3 := [nsec3 "." "" 0 [TypeNS; TypeSOA]].

(** A set that knows nothing of "example.". *)
Definition ns_other : list NSEC3 :=
  [nsec3 "other." "p" 1 [TypeNS; TypeSOA]].

(** The set of the name-error example of the specification: a record that
    matches "example." and a record that covers "*.example.". *)
Definition ns_nxdomain : list NSEC3 :=
  [nsec3 "example." "f" 0 [TypeNS; TypeSOA]; nsec3 "!" "a" 0 []].

Definition q_nx : Question := {| Name := "nx.example."; Type' := 1 |}.

(** A DS question under "example.": the delegation "sub.example." has no
    record of its own and lies in the span of an opt-out record. *)
Definition q_ds : Question := {| Name := "sub.example."; Type' := TypeDS |}.

Definition ns_optout (flags : Z) : list NSEC3 :=
  [nsec3 "example." "f" 0 [TypeNS; TypeSOA]; nsec3 "p" "t" flags []].

(** An MX question for a name that exists. *)
Definition q_mx : Question := {| Name := "example."; Type' := 15 |}.

(** ** Unambiguous record sets *)

(** A set in which no name is matched by two different records, nor
    covered by two: the scans then have one record to find at most. *)
Definition unambiguous `{NSEC3Methods} (ns : list NSEC3) : Prop :=
  forall name n1 n2, In n1 ns -> In n2 ns ->
    (Match n1 name = true -> Match n2 name = true -> n1 = n2)
    /\ (Cover n1 name = true -> Cover n2 name = true -> n1 = n2).

(** Two records for "example.", of which the second alone has an MX. *)
Definition ns_two_matches : list NSEC3 :=
  [nsec3 "example." "f" 0 [TypeNS; TypeSOA];
   nsec3 "example." "f" 0 [TypeNS; TypeSOA; 15]].

(** A record for "example." and a record for "other." that covers no
    name. *)
Definition ns_two_zones : list NSEC3 :=
  [nsec3 "example." "f" 0 [TypeNS; TypeSOA]; nsec3 "other." "" 0 [TypeNS]].

(** ** The label offsets of [dns.Split] *)

Lemma NextLabel_loop_bounds s n i k :
  NextLabel_loop s n i = (k, false) -> (i < k <= i + n)%nat.
Proof.
  revert i. induction n as [|n IH]; intros i; cbn [NextLabel_loop].
  - intros [= _ ?].
  - destruct (String.get i s) as [c|].
    + destruct (negb (Ascii.eqb c ".")).
      * intros Hk. apply IH in Hk. lia.
      * destruct (Nat.even (S (backslash_run s i))).
        -- intros Hk. apply IH in Hk. lia.
        -- intros [= <- ]. lia.
    + intros Hk. apply IH in Hk. lia.
Qed.

Lemma NextLabel_bounds s off k :
  NextLabel s off = (k, false) -> (off < k < String.length s)%nat.
Proof.
  unfold NextLabel. destruct (String.eqb s ""); [discriminate|].
  intros Hk. apply NextLabel_loop_bounds in Hk. lia.
Qed.

Lemma NextLabel_end s off :
  (String.length s <= off)%nat -> snd (NextLabel s off) = true.
Proof.
  intros Hoff. unfold NextLabel. destruct (String.eqb s ""); [reflexivity|].
  replace (String.length s - 1 - off)%nat with O by lia. reflexivity.
Qed.

Lemma Split_loop_tail fuel s idx off :
  Split_loop fuel s idx off = idx ++ Split_tail fuel s off.
Proof.
  revert idx off. induction fuel as [|fuel IH]; intros idx off; simpl.
  - by rewrite app_nil_r.
  - destruct (NextLabel s off) as [off' [|]].
    + by rewrite app_nil_r.
    + rewrite IH, <- app_assoc. reflexivity.
Qed.

(** A label starts right after a dot. *)
Lemma NextLabel_loop_dot s n i k :
  NextLabel_loop s n i = (k, false) -> String.get (k - 1) s = Some "."%char.
Proof.
  revert i. induction n as [|n IH]; intros i; cbn [NextLabel_loop].
  - intros [= _ ?].
  - destruct (String.get i s) as [c|] eqn:Hc; [|apply IH].
    destruct (Ascii.eqb_spec c ".") as [->|_]; cbn [negb]; [|apply IH].
    destruct (Nat.even (S (backslash_run s i))); [apply IH|].
    intros [= <-]. by replace (i + 1 - 1)%nat with i by lia.
Qed.

Lemma NextLabel_dot s off k :
  NextLabel s off = (k, false) -> String.get (k - 1) s = Some "."%char.
Proof.
  unfold NextLabel. destruct (String.eqb s ""); [discriminate|].
  apply NextLabel_loop_dot.
Qed.

(** The loop of [Split] never stops for lack of fuel: from the length of
    the name on, more fuel changes nothing. *)
Lemma Split_loop_fuel fuel s idx off :
  (String.length s - off <= fuel)%nat ->
  Split_loop (S fuel) s idx off = Split_loop fuel s idx off.
Proof.
  revert idx off. induction fuel as [|fuel IH]; intros idx off Hfuel.
  - simpl. pose proof (NextLabel_end s off ltac:(lia)) as Hend.
    destruct (NextLabel s off) as [off' fin]; simpl in Hend; subst fin.
    reflexivity.
  - change (Split_loop (S (S fuel)) s idx off) with
      (let '(off', fin) := NextLabel s off in
       if fin then idx else Split_loop (S fuel) s (idx ++ [off']) off').
    change (Split_loop (S fuel) s idx off) with
      (let '(off', fin) := NextLabel s off in
       if fin then idx else Split_loop fuel s (idx ++ [off']) off').
    destruct (NextLabel s off) as [off' [|]] eqn:Hnl; [reflexivity|].
    apply NextLabel_bounds in Hnl. apply IH. lia.
Qed.

Lemma Split_loop_more_fuel extra s idx off :
  Split_loop (extra + String.length s) s idx off
  = Split_loop (String.length s) s idx off.
Proof.
  induction extra as [|extra IH]; [reflexivity|].
  simpl Nat.add. rewrite Split_loop_fuel by lia. exact IH.
Qed.

Lemma Split_tail_bounds fuel s off k :
  In k (Split_tail fuel s off) -> (off < k < String.length s)%nat.
Proof.
  revert off. induction fuel as [|fuel IH]; intros off; simpl; [tauto|].
  destruct (NextLabel s off) as [off' [|]] eqn:Hnl; simpl; [tauto|].
  apply NextLabel_bounds in Hnl. intros [<- | Hin]; [lia|].
  apply IH in Hin. lia.
Qed.

(** Two offsets next to each other in the result are one label apart. *)
Lemma Split_tail_next fuel s off j p k :
  (off :: Split_tail fuel s off) !! j = Some p ->
  (off :: Split_tail fuel s off) !! S j = Some k ->
  NextLabel s p = (k, false).
Proof.
  revert off j. induction fuel as [|fuel IH]; intros off j; simpl.
  - destruct j; discriminate.
  - destruct (NextLabel s off) as [off' [|]] eqn:Hnl.
    + destruct j; discriminate.
    + destruct j as [|j]; simpl.
      * intros [= <-] [= <-]. exact Hnl.
      * apply IH.
Qed.

Lemma Split_root : Split "." = [].
Proof. reflexivity. Qed.

(** The examples of the documentation of the package, and escaped dots. *)
Example Split_examples :
  Split "www.miek.nl." = [0; 4; 9]%nat
  /\ Split "www.miek.nl" = [0; 4; 9]%nat
  /\ Split "example." = [0]%nat
  /\ Split "" = [0]%nat
  /\ Split "a\.b.c." = [0; 5]%nat
  /\ Split "a\\.b.c." = [0; 4; 6]%nat.
Proof. repeat split. Qed.

Lemma Split_cons s :
  s <> "." -> Split s = O :: Split_tail (String.length s) s O.
Proof.
  intros Hs. unfold Split. destruct (String.eqb_spec s "."); [contradiction|].
  apply Split_loop_tail.
Qed.

Lemma Split_bounds s k :
  In k (Split s) -> (k < String.length s)%nat \/ (k = O /\ s = "").
Proof.
  unfold Split. destruct (String.eqb s "."); [intros []|].
  rewrite Split_loop_tail. simpl. intros [<- | Hin].
  - destruct s; [right; done | left; simpl; lia].
  - left. apply Split_tail_bounds in Hin. lia.
Qed.

Lemma Split_le s k : In k (Split s) -> (k <= String.length s)%nat.
Proof. intros Hin. apply Split_bounds in Hin. lia. Qed.

Lemma Split_lookup_0 s k : Split s !! O = Some k -> k = O.
Proof.
  unfold Split. destruct (String.eqb s "."); [discriminate|].
  rewrite Split_loop_tail. by intros [= <-].
Qed.

Lemma Split_lookup_S s j k : Split s !! S j = Some k -> (0 < k < String.length s)%nat.
Proof.
  unfold Split. destruct (String.eqb s "."); [discriminate|].
  rewrite Split_loop_tail. simpl. intros Hk.
  apply list_elem_of_lookup_2, list_elem_of_In, Split_tail_bounds in Hk. lia.
Qed.

Lemma Split_lookup_next s j p k :
  Split s !! j = Some p -> Split s !! S j = Some k -> NextLabel s p = (k, false).
Proof.
  unfold Split. destruct (String.eqb s "."); [discriminate|].
  rewrite Split_loop_tail. apply Split_tail_next.
Qed.

(** ** Strings and flags *)

Lemma string_drop_length k s :
  String.length (string_drop k s) = (String.length s - k)%nat.
Proof.
  revert s. induction k as [|k IH]; intros s; simpl; [lia|].
  destruct s; simpl; [reflexivity|]. apply IH.
Qed.

Lemma string_length_0 s : String.length s = O -> s = "".
Proof. destruct s; [reflexivity | discriminate]. Qed.

Lemma string_drop_get k s c :
  String.get k s = Some c -> string_drop k s = String c (string_drop (S k) s).
Proof.
  revert s. induction k as [|k IH]; intros [|a s]; simpl; try discriminate.
  - by intros [= ->].
  - apply IH.
Qed.

Lemma string_drop_suffix k s : exists pre, s = String.append pre (string_drop k s).
Proof.
  revert s. induction k as [|k IH]; intros s.
  - by exists "".
  - destruct s as [|a s]; [by exists ""|].
    destruct (IH s) as [pre Hpre]. exists (String a pre).
    change (String a s = String a (String.append pre (string_drop k s))).
    f_equal. exact Hpre.
Qed.

Lemma land_1_testbit f : (Z.land f 1 =? 1) = Z.testbit f 0.
Proof.
  change 1 with (Z.ones 1) at 1. rewrite Z.land_ones by lia.
  change (2 ^ 1) with 2. rewrite <- Z.bit0_mod.
  by destruct (Z.testbit f 0).
Qed.

Lemma labelPath_lookup name i z :
  labelPath name !! i = Some z <->
  exists k, Split name !! i = Some k /\ z = string_drop k name.
Proof.
  unfold labelPath. rewrite list_lookup_fmap.
  destruct (Split name !! i) as [k|]; simpl; split.
  - intros [= <-]. eauto.
  - intros (k' & [= <-] & ->). reflexivity.
  - discriminate.
  - intros (k' & [=] & _).
Qed.

Lemma labelPath_length name : length (labelPath name) = length (Split name).
Proof. unfold labelPath. apply length_fmap. Qed.

Lemma labelPath_root : labelPath "." = [].
Proof. reflexivity. Qed.

Example labelPath_example :
  labelPath "a.b.example." = ["a.b.example."; "b.example."; "example."].
Proof. reflexivity. Qed.

Lemma labelPath_first name : name <> "." -> labelPath name !! O = Some name.
Proof.
  intros Hname. unfold labelPath. rewrite (Split_cons name Hname). reflexivity.
Qed.

Lemma labelPath_lookup_0 name z : labelPath name !! O = Some z -> z = name.
Proof.
  intros (k & Hk & ->)%labelPath_lookup. apply Split_lookup_0 in Hk. by subst k.
Qed.

(** A candidate after the first is a proper, non-empty suffix. *)
Lemma labelPath_lookup_S name j z :
  labelPath name !! S j = Some z ->
  (0 < String.length z < String.length name)%nat.
Proof.
  intros (k & Hk & ->)%labelPath_lookup. apply Split_lookup_S in Hk.
  rewrite string_drop_length. lia.
Qed.

(** Only the empty name has an empty candidate. *)
Lemma labelPath_empty name i : labelPath name !! i = Some "" -> name = "".
Proof.
  destruct i as [|j]; intros Hz.
  - by apply labelPath_lookup_0 in Hz.
  - apply labelPath_lookup_S in Hz. simpl in Hz. lia.
Qed.

(** A candidate after the first starts right after a dot. *)
Lemma labelPath_after_dot name j z :
  labelPath name !! S j = Some z ->
  exists k, z = string_drop k name /\ (0 < k)%nat
            /\ String.get (k - 1) name = Some "."%char.
Proof.
  intros (k & Hk & ->)%labelPath_lookup. exists k. split; [reflexivity|].
  assert (is_Some (Split name !! j)) as [p Hp].
  { apply lookup_lt_is_Some. apply lookup_lt_Some in Hk. lia. }
  pose proof (Split_lookup_next _ _ _ _ Hp Hk) as Hnext.
  split; [apply NextLabel_bounds in Hnext; lia | by eapply NextLabel_dot].
Qed.

(** The root name is a candidate of no name but one that ends in an empty
    label. *)
Lemma labelPath_root_candidate name i :
  labelPath name !! i = Some "." -> exists pre, name = String.append pre "..".
Proof.
  destruct i as [|j]; intros Hz.
  - pose proof (labelPath_lookup_0 _ _ Hz) as <-.
    rewrite labelPath_root in Hz. discriminate Hz.
  - apply labelPath_after_dot in Hz as (k & Hk & Hpos & Hdot).
    destruct (string_drop_suffix (k - 1) name) as [pre Hpre].
    exists pre. rewrite Hpre at 1. f_equal.
    rewrite (string_drop_get _ _ _ Hdot).
    replace (S (k - 1)) with k by lia. by rewrite <- Hk.
Qed.

(** ** [typesSet] *)

Lemma typesSet_map_lookup (types : list Z) (tm : gmap Z unit) (t : Z) :
  is_Some (foldl (fun tm t => <[t := tt]> tm) tm types !! t)
  <-> In t types \/ is_Some (tm !! t).
Proof.
  revert tm. induction types as [|u types IH]; intros tm; simpl.
  - tauto.
  - rewrite IH. destruct (decide (u = t)) as [->|Hne].
    + rewrite lookup_insert_eq. split; [auto|]. intros _. right. eauto.
    + rewrite lookup_insert_ne by done. tauto.
Qed.

Lemma typesSet_scan_true (tm : gmap Z unit) (set : list Z) :
  typesSet_scan tm set = true <-> exists t, In t set /\ is_Some (tm !! t).
Proof.
  induction set as [|u set IH]; simpl.
  - split; [discriminate | intros (t & [] & _)].
  - destruct (tm !! u) as [[]|] eqn:Hu.
    + split; [|done]. intros _. exists u. rewrite Hu. eauto.
    + rewrite IH. split.
      * intros (t & Hin & Ht). eauto.
      * intros (t & [<- | Hin] & Ht); [|eauto].
        rewrite Hu in Ht. by destruct Ht.
Qed.

(** [typesSet] holds when some type of [set] is one of [types]. *)
Lemma typesSet_true (set types : list Z) :
  typesSet set types = true <-> exists t, In t set /\ In t types.
Proof.
  unfold typesSet. rewrite typesSet_scan_true.
  split; intros (t & Hset & Ht); exists t; split; try done.
  - apply typesSet_map_lookup in Ht as [Ht | Ht]; [done|].
    rewrite lookup_empty in Ht. by destruct Ht.
  - apply typesSet_map_lookup. by left.
Qed.

Lemma typesSet_1 (set : list Z) (a : Z) :
  typesSet set [a] = true <-> In a set.
Proof.
  rewrite typesSet_true. split.
  - intros (t & Hset & [<- | []]). done.
  - intros Ha. exists a. simpl. auto.
Qed.

Lemma typesSet_2 (set : list Z) (a b : Z) :
  typesSet set [a; b] = true <-> In a set \/ In b set.
Proof.
  rewrite typesSet_true. split.
  - intros (t & Hset & [<- | [<- | []]]); auto.
  - intros [Ha | Hb]; [exists a | exists b]; simpl; auto.
Qed.

(** ** The scans over a set of NSEC3 records *)

Section scans.

Context `{NSEC3Methods}.

Lemma findMatching_rrs name ns :
  findMatching name (rrs ns) =
  Ret match firstMatch name ns with
      | Some n => (TypeBitMap n, None)
      | None => ([], Some ErrNSECMissingCoverage)
      end.
Proof.
  induction ns as [|n ns IH]; simpl; [reflexivity|].
  destruct (Match n name); [reflexivity | exact IH].
Qed.

Lemma findCoverer_rrs name ns :
  findCoverer name (rrs ns) =
  Ret match firstCover name ns with
      | Some n => (TypeBitMap n, optOutFlag n, None)
      | None => ([], false, Some ErrNSECMissingCoverage)
      end.
Proof.
  induction ns as [|n ns IH]; simpl; [reflexivity|].
  destruct (Cover n name); [|exact IH].
  unfold optOutFlag. by rewrite land_1_testbit.
Qed.

Lemma firstMatch_matched name ns :
  matched name ns = true <-> exists n, firstMatch name ns = Some n.
Proof.
  unfold matched, firstMatch. induction ns as [|n ns IH]; simpl.
  - split; [discriminate | intros [n [=]]].
  - destruct (Match n name); simpl; [|exact IH]. split; eauto.
Qed.

Lemma firstMatch_unmatched name ns :
  matched name ns = false <-> firstMatch name ns = None.
Proof.
  split; intros Hx.
  - destruct (firstMatch name ns) as [n|] eqn:Hn; [|reflexivity].
    assert (matched name ns = true) by (apply firstMatch_matched; eauto).
    congruence.
  - destruct (matched name ns) eqn:Hm; [|reflexivity].
    apply firstMatch_matched in Hm as [n Hn]. congruence.
Qed.

Lemma firstCover_covered name ns :
  covered name ns = true <-> exists n, firstCover name ns = Some n.
Proof.
  unfold covered, firstCover. induction ns as [|n ns IH]; simpl.
  - split; [discriminate | intros [n [=]]].
  - destruct (Cover n name); simpl; [|exact IH]. split; eauto.
Qed.

Lemma firstCover_uncovered name ns :
  covered name ns = false <-> firstCover name ns = None.
Proof.
  split; intros Hx.
  - destruct (firstCover name ns) as [n|] eqn:Hn; [|reflexivity].
    assert (covered name ns = true) by (apply firstCover_covered; eauto).
    congruence.
  - destruct (covered name ns) eqn:Hm; [|reflexivity].
    apply firstCover_covered in Hm as [n Hn]. congruence.
Qed.

(** What [findMatching] reports as its error, on a set of NSEC3 records. *)
Lemma findMatching_err name ns :
  exists types,
    findMatching name (rrs ns) =
    Ret (types, if matched name ns then None else Some ErrNSECMissingCoverage).
Proof.
  rewrite findMatching_rrs. destruct (matched name ns) eqn:Hm.
  - apply firstMatch_matched in Hm as [n ->]. eauto.
  - apply firstMatch_unmatched in Hm as ->. eauto.
Qed.

(** A record that is not an NSEC3 record, reached by the scan, makes it
    panic. *)
Lemma findMatching_panic name ns rrtype rest :
  matched name ns = false ->
  findMatching name (rrs ns ++ RR_other rrtype :: rest) = Panic.
Proof.
  unfold matched. induction ns as [|n ns IH]; simpl; [reflexivity|].
  destruct (Match n name); simpl; [discriminate | exact IH].
Qed.

Lemma findCoverer_panic name ns rrtype rest :
  covered name ns = false ->
  findCoverer name (rrs ns ++ RR_other rrtype :: rest) = Panic.
Proof.
  unfold covered. induction ns as [|n ns IH]; simpl; [reflexivity|].
  destruct (Cover n name); simpl; [discriminate | exact IH].
Qed.

Lemma is_NSEC3_rrs nsec : Forall is_NSEC3 nsec -> exists ns, nsec = rrs ns.
Proof.
  induction 1 as [|rr nsec Hrr _ [ns ->]].
  - by exists [].
  - destruct rr as [n|]; [|destruct Hrr]. by exists (n :: ns).
Qed.

Lemma rrs_is_NSEC3 ns : Forall is_NSEC3 (rrs ns).
Proof. induction ns; constructor; simpl; auto. Qed.

End scans.

(** ** The closest-encloser search *)

Lemma bind_Ret {A B : Type} (a : A) (k : A -> outcome B) : (Ret a ≫= k) = k a.
Proof. reflexivity. Qed.

Lemma bind_Panic {A B : Type} (k : A -> outcome B) : (Panic ≫= k) = Panic.
Proof. reflexivity. Qed.

Lemma index_lookup (l : list nat) i k : l !! i = Some k -> index l i = Ret k.
Proof. unfold index. by intros ->. Qed.

Lemma slice_from_Split name i k :
  Split name !! i = Some k -> slice_from name k = Ret (string_drop k name).
Proof.
  intros Hk. apply list_elem_of_lookup_2, list_elem_of_In, Split_le in Hk.
  unfold slice_from. by apply Nat.leb_le in Hk as ->.
Qed.

Section search.

Context `{NSEC3Methods}.

Local Abbreviation loop name ns := (findClosestEncloser_loop name (Split name) (rrs ns)).

(** A candidate that no record matches: the loop goes on. *)
Lemma loop_miss name ns n i z :
  labelPath name !! i = Some z -> matched z ns = false ->
  loop name ns (S n) i = loop name ns n (S i).
Proof.
  intros (k & Hk & ->)%labelPath_lookup Hm. cbn [findClosestEncloser_loop].
  rewrite (index_lookup _ _ _ Hk), bind_Ret.
  rewrite (slice_from_Split _ _ _ Hk), bind_Ret.
  destruct (findMatching_err (string_drop k name) ns) as [types ->].
  rewrite Hm. reflexivity.
Qed.

(** A candidate that some record matches: the loop returns it, with the
    candidate before it. *)
Lemma loop_hit name ns n i z :
  labelPath name !! i = Some z -> matched z ns = true ->
  loop name ns (S n) i = Ret (z, nextCloser name i).
Proof.
  intros Hz Hm. pose proof Hz as (k & Hk & ->)%labelPath_lookup.
  cbn [findClosestEncloser_loop].
  rewrite (index_lookup _ _ _ Hk), bind_Ret.
  rewrite (slice_from_Split _ _ _ Hk), bind_Ret.
  destruct (findMatching_err (string_drop k name) ns) as [types ->].
  rewrite Hm, bind_Ret. cbv beta iota.
  destruct i as [|j]; [reflexivity|].
  assert (is_Some (Split name !! j)) as [k' Hk'].
  { apply lookup_lt_is_Some. apply lookup_lt_Some in Hk. lia. }
  replace (S j - 1)%nat with j by lia. cbn [Nat.eqb negb].
  rewrite (index_lookup _ _ _ Hk'), bind_Ret.
  rewrite (slice_from_Split _ _ _ Hk'), bind_Ret.
  unfold nextCloser.
  assert (labelPath name !! j = Some (string_drop k' name)) as ->
    by (apply labelPath_lookup; eauto).
  reflexivity.
Qed.

Lemma loop_skip name ns d : forall n i,
  (i + d <= length (Split name))%nat ->
  (forall j z, (i <= j < i + d)%nat ->
               labelPath name !! j = Some z -> matched z ns = false) ->
  loop name ns (d + n) i = loop name ns n (i + d).
Proof.
  induction d as [|d IH]; intros n i Hlen Hmiss.
  - by rewrite Nat.add_0_r.
  - assert (is_Some (labelPath name !! i)) as [z Hz].
    { apply lookup_lt_is_Some. rewrite labelPath_length. lia. }
    simpl Nat.add. rewrite (loop_miss name ns (d + n) i z Hz).
    + rewrite IH; [f_equal; lia | lia |].
      intros j z' Hj. apply Hmiss. lia.
    + apply (Hmiss i); [lia | done].
Qed.

Lemma findClosestEncloser_at name ns i ce :
  closestEncloserAt name ns i ce ->
  findClosestEncloser name (rrs ns) = Ret (ce, nextCloser name i).
Proof.
  intros (Hce & Hm & Hmiss). unfold findClosestEncloser. cbv zeta.
  assert (i < length (Split name))%nat as Hi.
  { rewrite <- labelPath_length. by eapply lookup_lt_Some. }
  replace (length (Split name))
    with (i + S (length (Split name) - S i))%nat by lia.
  rewrite loop_skip; [| lia |].
  - by apply loop_hit.
  - intros j z Hj. apply Hmiss. lia.
Qed.

Lemma findClosestEncloser_none name ns :
  noEncloser name ns -> findClosestEncloser name (rrs ns) = Ret ("", "").
Proof.
  intros Hnone. unfold findClosestEncloser. cbv zeta.
  replace (length (Split name)) with (length (Split name) + 0)%nat at 1 by lia.
  rewrite loop_skip; [reflexivity | lia |].
  intros j z _ Hz. apply Hnone.
  by apply list_elem_of_lookup_2, list_elem_of_In in Hz.
Qed.

(** The search finds the first matched candidate or there is none. *)
Lemma closestEncloser_cases name ns :
  noEncloser name ns \/ exists i ce, closestEncloserAt name ns i ce.
Proof.
  unfold noEncloser, closestEncloserAt.
  induction (labelPath name) as [|z path IH].
  - left. intros z [].
  - destruct (matched z ns) eqn:Hz.
    + right. exists O, z. repeat split; [done|]. intros j z' Hj. lia.
    + destruct IH as [Hnone | (i & ce & Hce & Hm & Hmiss)].
      * left. intros z' [<- | Hin]; auto.
      * right. exists (S i), ce. repeat split; [done..|].
        intros [|j] z' Hj; simpl.
        -- by intros [= <-].
        -- apply Hmiss. lia.
Qed.

(** The closest encloser found is the empty string only for the empty
    name. *)
Lemma closestEncloserAt_nonempty name ns i ce :
  closestEncloserAt name ns i ce -> name <> "" -> ce <> "".
Proof.
  intros (Hce & _) Hname ->. by apply labelPath_empty in Hce.
Qed.

End search.

(** ** The verifiers on a set of NSEC3 records *)

Section verifiers.

Context `{NSEC3Methods}.

Lemma verifyNameError_none q ns :
  noEncloser (Name q) ns ->
  verifyNameError q (rrs ns) = Ret (Some ErrNSECMissingCoverage).
Proof.
  intros Hnone. unfold verifyNameError.
  by rewrite (findClosestEncloser_none _ _ Hnone).
Qed.

Lemma verifyNameError_at q ns i ce :
  closestEncloserAt (Name q) ns i ce -> ce <> "" ->
  verifyNameError q (rrs ns) =
  Ret (if covered (String.append "*." ce) ns then None
       else Some ErrNSECMissingCoverage).
Proof.
  intros Hce Hne. unfold verifyNameError.
  rewrite (findClosestEncloser_at _ _ _ _ Hce), bind_Ret. cbv beta iota.
  destruct (String.eqb_spec ce "") as [|_]; [contradiction|].
  rewrite findCoverer_rrs, bind_Ret.
  destruct (covered (String.append "*." ce) ns) eqn:Hc.
  - by apply firstCover_covered in Hc as [n ->].
  - by apply firstCover_uncovered in Hc as ->.
Qed.

Lemma optOutPath_none name ns :
  noEncloser name ns ->
  optOutPath name (rrs ns) = Ret (Some ErrNSECMissingCoverage).
Proof.
  intros Hnone. unfold optOutPath.
  by rewrite (findClosestEncloser_none _ _ Hnone).
Qed.

Lemma optOutPath_at name ns i ce :
  closestEncloserAt name ns i ce -> ce <> "" ->
  optOutPath name (rrs ns) =
  Ret match firstCover (nextCloser name i) ns with
      | None => Some ErrNSECMissingCoverage
      | Some n => if optOutFlag n then None else Some ErrNSECOptOut
      end.
Proof.
  intros Hce Hne. unfold optOutPath.
  rewrite (findClosestEncloser_at _ _ _ _ Hce), bind_Ret. cbv beta iota.
  destruct (String.eqb_spec ce "") as [|_]; [contradiction|].
  rewrite findCoverer_rrs, bind_Ret.
  destruct (firstCover (nextCloser name i) ns) as [n|]; [|reflexivity].
  by destruct (optOutFlag n).
Qed.

Lemma verifyNODATA_matched q ns n :
  firstMatch (Name q) ns = Some n ->
  verifyNODATA q (rrs ns) =
  Ret (if typesSet (TypeBitMap n) [Type' q; TypeCNAME]
       then Some ErrNSECTypeExists else None).
Proof.
  intros Hn. unfold verifyNODATA. rewrite findMatching_rrs, Hn, bind_Ret.
  cbv beta iota. by destruct (typesSet _ _).
Qed.

Lemma verifyNODATA_unmatched q ns :
  matched (Name q) ns = false ->
  verifyNODATA q (rrs ns) =
  if Type' q =? TypeDS then optOutPath (Name q) (rrs ns)
  else Ret (Some ErrNSECMissingCoverage).
Proof.
  intros Hm%firstMatch_unmatched. unfold verifyNODATA.
  rewrite findMatching_rrs, Hm, bind_Ret. cbv beta iota.
  by destruct (Type' q =? TypeDS).
Qed.

Lemma verifyDelegation_matched delegation ns n :
  firstMatch delegation ns = Some n ->
  verifyDelegation delegation (rrs ns) =
  Ret (if typesSet (TypeBitMap n) [TypeNS]
       then if typesSet (TypeBitMap n) [TypeDS; TypeSOA]
            then Some ErrNSECBadDelegation else None
       else Some ErrNSECNSMissing).
Proof.
  intros Hn. unfold verifyDelegation. rewrite findMatching_rrs, Hn, bind_Ret.
  cbv beta iota. destruct (typesSet _ [TypeNS]); [|reflexivity].
  by destruct (typesSet _ _).
Qed.

Lemma verifyDelegation_unmatched delegation ns :
  matched delegation ns = false ->
  verifyDelegation delegation (rrs ns) = optOutPath delegation (rrs ns).
Proof.
  intros Hm%firstMatch_unmatched. unfold verifyDelegation.
  by rewrite findMatching_rrs, Hm, bind_Ret.
Qed.

(** The closest encloser of an unmatched name is never the empty
    string. *)
Lemma closestEncloserAt_unmatched name ns i ce :
  closestEncloserAt name ns i ce -> matched name ns = false -> ce <> "".
Proof.
  intros (Hce & Hm & _) Hname ->.
  apply labelPath_empty in Hce. subst name. congruence.
Qed.

End verifiers.

(** ** Properties of the scans *)

(** C7. On every name and every set of NSEC3 records, [findMatching]
    returns the type bitmap of the first record, in the order of the set,
    whose [Match] holds for the name, and the error
    [ErrNSECMissingCoverage] when no record matches; [findCoverer] returns
    the type bitmap and the opt-out flag of the first record whose [Cover]
    holds, and [ErrNSECMissingCoverage] when none covers.  Both fail so on
    the empty set. *)
Theorem scans_return_first `{NSEC3Methods} (name : string) (ns : list NSEC3) :
  findMatching name (rrs ns) =
    Ret match List.find (fun n => Match n name) ns with
        | Some n => (TypeBitMap n, None)
        | None => ([], Some ErrNSECMissingCoverage)
        end
  /\ findCoverer name (rrs ns) =
    Ret match List.find (fun n => Cover n name) ns with
        | Some n => (TypeBitMap n, Z.testbit (Flags n) 0, None)
        | None => ([], false, Some ErrNSECMissingCoverage)
        end
  /\ findMatching name [] = Ret ([], Some ErrNSECMissingCoverage)
  /\ findCoverer name [] = Ret ([], false, Some ErrNSECMissingCoverage).
Proof.
  split; [apply findMatching_rrs|].
  split; [apply findCoverer_rrs|].
  split; reflexivity.
Qed.

(** ** Properties of the closest-encloser search *)

(** C1, for the candidates of the label path.  Let [A] be candidate [i] of
    the label path of [N]: the suffixes of [N] at the label offsets of
    [dns.Split], of which [N] is the first unless [N] is the root name,
    and of which the root name is none unless [N] ends in an empty label.
    If some record matches [A] and no record matches an earlier, longer
    candidate, [findClosestEncloser] returns [A] with the candidate just
    before it, which is one label longer: [A] starts at the next label
    of it, right after a dot.  It returns [A] with [N] when [A] is the
    first candidate, and so whenever [A] is [N]. *)
Theorem findClosestEncloser_closest `{NSEC3Methods}
    (N : string) (ns : list NSEC3) (i : nat) (A : string) :
  labelPath N !! i = Some A ->
  matched A ns = true ->
  (forall j B, (j < i)%nat -> labelPath N !! j = Some B -> matched B ns = false) ->
  findClosestEncloser N (rrs ns) = Ret (A, nextCloser N i)
  /\ (i = O -> A = N /\ nextCloser N i = N)
  /\ (A = N -> nextCloser N i = N)
  /\ (forall j, i = S j ->
        labelPath N !! j = Some (nextCloser N i)
        /\ (String.length A < String.length (nextCloser N i))%nat
        /\ exists p k, nextCloser N i = string_drop p N
                       /\ A = string_drop k N
                       /\ NextLabel N p = (k, false)
                       /\ String.get (k - 1) N = Some "."%char)
  /\ (N <> "." -> labelPath N !! O = Some N)
  /\ (A = "." -> exists pre, N = String.append pre "..").
Proof.
  intros HA Hm Hmiss.
  split; [by apply findClosestEncloser_at|].
  split; [intros ->; split; [by apply labelPath_lookup_0 in HA | reflexivity]|].
  split; [|split; [|split; [apply labelPath_first|]]].
  - intros ->. destruct i as [|j]; [reflexivity|].
    apply labelPath_lookup_S in HA. lia.
  - intros j ->.
    pose proof HA as (k & Hk & ->)%labelPath_lookup.
    assert (is_Some (Split N !! j)) as [p Hp].
    { apply lookup_lt_is_Some. apply lookup_lt_Some in Hk. lia. }
    assert (labelPath N !! j = Some (string_drop p N)) as Hj
      by (apply labelPath_lookup; eauto).
    unfold nextCloser. rewrite Hj. simpl default.
    pose proof (Split_lookup_next _ _ _ _ Hp Hk) as Hnext.
    split; [reflexivity|]. split.
    + rewrite !string_drop_length. apply NextLabel_bounds in Hnext. lia.
    + exists p, k. repeat split; [done|]. by eapply NextLabel_dot.
  - intros ->. by eapply labelPath_root_candidate.
Qed.

Lemma findClosestEncloser_closest_witness :
  findClosestEncloser (H := plain) "a.b.example." (rrs ns_example)
  = Ret ("example.", "b.example.").
Proof.
  refine (proj1 (findClosestEncloser_closest (H := plain)
                   "a.b.example." ns_example 2 "example." _ _ _)).
  - reflexivity.
  - reflexivity.
  - intros j B Hj HB. destruct j as [|[|j]]; [| |lia].
    + injection HB as <-. reflexivity.
    + injection HB as <-. reflexivity.
Defined.

(** The root name is no candidate: a set whose only record matches the
    root leaves "example." without closest encloser, and the root name
    itself, the only suffix of itself, too. *)
Lemma findClosestEncloser_root_counterexample :
  "example." = String.append "example" "."
  /\ matched (H := plain) "." ns_root = true
  /\ (forall B, (exists pre, "example." = String.append pre B) ->
                (String.length "." < String.length B)%nat ->
                matched (H := plain) B ns_root = false)
  /\ findClosestEncloser (H := plain) "example." (rrs ns_root) = Ret ("", "")
  /\ (forall child,
        findClosestEncloser (H := plain) "example." (rrs ns_root)
        <> Ret (".", child))
  /\ findClosestEncloser (H := plain) "." (rrs ns_root) = Ret ("", "")
  /\ findClosestEncloser (H := plain) "." (rrs ns_root) <> Ret (".", ".").
Proof.
  split; [reflexivity|]. split; [reflexivity|]. split.
  - intros B _ HB.
    change (matched (H := plain) B ns_root) with (String.eqb "." B || false).
    destruct (String.eqb_spec "." B) as [<-|]; [simpl in HB; lia | reflexivity].
  - split; [reflexivity|]. split; [intros child; discriminate|].
    split; [reflexivity | discriminate].
Qed.

(** A name is the first candidate of its own label path, the root name
    apart: a set that matches no candidate and not the root does not match
    the name. *)
Lemma noEncloser_unmatched `{NSEC3Methods} (N : string) (ns : list NSEC3) :
  noEncloser N ns -> matched "." ns = false -> matched N ns = false.
Proof.
  intros Hnone Hroot. destruct (String.eqb_spec N ".") as [->|HN]; [done|].
  apply Hnone. apply list_elem_of_In.
  eapply list_elem_of_lookup_2, labelPath_first, HN.
Qed.

(** C6. When no record matches a candidate of the label path of [N], nor
    the root name, [findClosestEncloser] returns the pair of empty strings,
    and the verifiers that rely on it fail with [ErrNSECMissingCoverage]:
    [verifyNameError] on every question for [N], [verifyNODATA] on every DS
    question for [N], and [verifyDelegation] on [N], the name [N] being
    unmatched in the last two. *)
Theorem no_encloser_MissingCoverage `{NSEC3Methods}
    (N : string) (ns : list NSEC3) :
  (forall z, In z (labelPath N) -> matched z ns = false) ->
  matched "." ns = false ->
  findClosestEncloser N (rrs ns) = Ret ("", "")
  /\ (forall q, Name q = N ->
        verifyNameError q (rrs ns) = Ret (Some ErrNSECMissingCoverage))
  /\ matched N ns = false
  /\ (forall q, Name q = N -> Type' q = TypeDS ->
        verifyNODATA q (rrs ns) = Ret (Some ErrNSECMissingCoverage))
  /\ verifyDelegation N (rrs ns) = Ret (Some ErrNSECMissingCoverage).
Proof.
  intros Hnone Hroot.
  pose proof (noEncloser_unmatched N ns Hnone Hroot) as HN.
  split; [by apply findClosestEncloser_none|].
  split; [intros q <-; by apply verifyNameError_none|].
  split; [exact HN|]. split.
  - intros q <- Hds. rewrite verifyNODATA_unmatched by done.
    rewrite Hds. simpl. by apply optOutPath_none.
  - rewrite verifyDelegation_unmatched by done. by apply optOutPath_none.
Qed.

Lemma no_encloser_MissingCoverage_witness :
  findClosestEncloser (H := plain) "nx.example." (rrs ns_other) = Ret ("", "")
  /\ verifyNameError (H := plain) {| Name := "nx.example."; Type' := 1 |}
       (rrs ns_other) = Ret (Some ErrNSECMissingCoverage)
  /\ verifyNODATA (H := plain) {| Name := "nx.example."; Type' := TypeDS |}
       (rrs ns_other) = Ret (Some ErrNSECMissingCoverage)
  /\ verifyDelegation (H := plain) "nx.example." (rrs ns_other)
     = Ret (Some ErrNSECMissingCoverage).
Proof.
  assert (forall z, In z (labelPath "nx.example.") ->
                    matched (H := plain) z ns_other = false) as Hnone.
  { intros z [<- | [<- | []]]; reflexivity. }
  pose proof (no_encloser_MissingCoverage (H := plain) "nx.example." ns_other
                Hnone eq_refl) as (Hce & Hne & _ & Hnd & Hdel).
  split; [exact Hce|].
  split; [exact (Hne {| Name := "nx.example."; Type' := 1 |} eq_refl)|].
  split; [exact (Hnd {| Name := "nx.example."; Type' := TypeDS |} eq_refl eq_refl)|].
  exact Hdel.
Defined.

(** ** Properties of the verifiers *)

(** C5. On a question with a non-empty name, [verifyNameError] fails with
    [ErrNSECMissingCoverage] when no candidate of the label path is
    matched; when [ce] is the closest encloser it returns what
    [findCoverer] reports for the wildcard name "*." followed by [ce]: no
    error when some record covers it, [ErrNSECMissingCoverage] when none
    does.  One of the two cases always holds. *)
Theorem verifyNameError_result `{NSEC3Methods}
    (q : Question) (ns : list NSEC3) :
  Name q <> "" ->
  ((forall z, In z (labelPath (Name q)) -> matched z ns = false) ->
     verifyNameError q (rrs ns) = Ret (Some ErrNSECMissingCoverage))
  /\ (forall i ce, closestEncloserAt (Name q) ns i ce ->
        (exists types optOut err,
            findCoverer (String.append "*." ce) (rrs ns)
            = Ret (types, optOut, err)
            /\ verifyNameError q (rrs ns) = Ret err)
        /\ verifyNameError q (rrs ns) =
           Ret (if covered (String.append "*." ce) ns then None
                else Some ErrNSECMissingCoverage))
  /\ ((forall z, In z (labelPath (Name q)) -> matched z ns = false)
      \/ exists i ce, closestEncloserAt (Name q) ns i ce).
Proof.
  intros Hname.
  split; [apply verifyNameError_none|].
  split; [|apply closestEncloser_cases].
  intros i ce Hce.
  pose proof (closestEncloserAt_nonempty _ _ _ _ Hce Hname) as Hne.
  rewrite (verifyNameError_at _ _ _ _ Hce Hne). split; [|reflexivity].
  rewrite findCoverer_rrs.
  destruct (covered (String.append "*." ce) ns) eqn:Hc.
  - apply firstCover_covered in Hc as [n ->]. eauto.
  - apply firstCover_uncovered in Hc as ->. eauto.
Qed.

Lemma closestEncloserAt_nx :
  closestEncloserAt (H := plain) "nx.example." ns_nxdomain 1 "example.".
Proof.
  split; [reflexivity|]. split; [reflexivity|].
  intros j z Hj Hz. destruct j as [|j]; [|lia].
  injection Hz as <-. reflexivity.
Defined.

Lemma verifyNameError_result_witness :
  verifyNameError (H := plain) q_nx (rrs ns_nxdomain) = Ret None.
Proof.
  refine (proj2 (proj1 (proj2 (verifyNameError_result (H := plain)
            q_nx ns_nxdomain _)) 1%nat "example." closestEncloserAt_nx)).
  discriminate.
Defined.

(** The name-error example of the specification: with the record that
    covers the wildcard the proof is accepted, without it it fails. *)
Example verifyNameError_example :
  verifyNameError (H := plain) q_nx (rrs ns_nxdomain) = Ret None
  /\ verifyNameError (H := plain) q_nx (rrs ns_example)
     = Ret (Some ErrNSECMissingCoverage).
Proof. split; reflexivity. Qed.

(** C9. [verifyNameError] asks nothing of the next closer name: on a
    question with a non-empty name it succeeds as soon as a closest
    encloser exists and some record covers the wildcard name "*." followed
    by the encloser, and there are record sets on which it succeeds while
    no record covers the next closer name. *)
Theorem verifyNameError_without_next_closer :
  (forall (H : NSEC3Methods) (q : Question) (ns : list NSEC3) i ce,
      Name q <> "" ->
      closestEncloserAt (Name q) ns i ce ->
      covered (String.append "*." ce) ns = true ->
      verifyNameError q (rrs ns) = Ret None)
  /\ (exists (H : NSEC3Methods) (q : Question) (ns : list NSEC3) i ce,
        closestEncloserAt (Name q) ns i ce
        /\ covered (String.append "*." ce) ns = true
        /\ covered (nextCloser (Name q) i) ns = false
        /\ findClosestEncloser (Name q) (rrs ns) = Ret (ce, nextCloser (Name q) i)
        /\ verifyNameError q (rrs ns) = Ret None).
Proof.
  split.
  - intros H q ns i ce Hname Hce Hcov.
    pose proof (closestEncloserAt_nonempty _ _ _ _ Hce Hname) as Hne.
    by rewrite (verifyNameError_at _ _ _ _ Hce Hne), Hcov.
  - exists plain, q_nx, ns_nxdomain, 1%nat, "example.".
    split; [exact closestEncloserAt_nx|]. repeat split.
Qed.

Lemma verifyNameError_without_next_closer_witness :
  covered (H := plain) "nx.example." ns_nxdomain = false
  /\ verifyNameError (H := plain) q_nx (rrs ns_nxdomain) = Ret None.
Proof.
  split; [reflexivity|].
  refine (proj1 verifyNameError_without_next_closer plain q_nx ns_nxdomain
            1%nat "example." _ closestEncloserAt_nx _).
  - discriminate.
  - reflexivity.
Defined.

(** C3. On a question whose name no record matches, [verifyNODATA] fails
    with [ErrNSECMissingCoverage] when the type is not DS.  When the type
    is DS it fails with [ErrNSECMissingCoverage] if no candidate of the
    label path is matched; if there is a closest encloser, it fails with
    [ErrNSECMissingCoverage] when no record covers the next closer name,
    and otherwise, [n] being the first record that covers it, it succeeds
    when the opt-out flag of [n] is set and fails with [ErrNSECOptOut]
    when it is not. *)
Theorem verifyNODATA_unmatched_result `{NSEC3Methods}
    (q : Question) (ns : list NSEC3) :
  matched (Name q) ns = false ->
  (Type' q <> TypeDS ->
     verifyNODATA q (rrs ns) = Ret (Some ErrNSECMissingCoverage))
  /\ (Type' q = TypeDS ->
      ((forall z, In z (labelPath (Name q)) -> matched z ns = false) ->
         verifyNODATA q (rrs ns) = Ret (Some ErrNSECMissingCoverage))
      /\ (forall i ce, closestEncloserAt (Name q) ns i ce ->
            (covered (nextCloser (Name q) i) ns = false ->
               verifyNODATA q (rrs ns) = Ret (Some ErrNSECMissingCoverage))
            /\ (forall n, firstCover (nextCloser (Name q) i) ns = Some n ->
                  verifyNODATA q (rrs ns) =
                    Ret (if optOutFlag n then None else Some ErrNSECOptOut)
                  /\ (verifyNODATA q (rrs ns) = Ret None
                      <-> optOutFlag n = true))))
  /\ ((forall z, In z (labelPath (Name q)) -> matched z ns = false)
      \/ exists i ce, closestEncloserAt (Name q) ns i ce).
Proof.
  intros Hm. rewrite (verifyNODATA_unmatched q ns Hm).
  split; [|split; [|apply closestEncloser_cases]].
  - intros Hty. by apply Z.eqb_neq in Hty as ->.
  - intros ->. rewrite Z.eqb_refl. split; [apply optOutPath_none|].
    intros i ce Hce.
    pose proof (closestEncloserAt_unmatched _ _ _ _ Hce Hm) as Hne.
    rewrite (optOutPath_at _ _ _ _ Hce Hne). split.
    + by intros ->%firstCover_uncovered.
    + intros n ->. split; [reflexivity|].
      destruct (optOutFlag n); split; congruence.
Qed.

Lemma closestEncloserAt_sub flags :
  closestEncloserAt (H := plain) "sub.example." (ns_optout flags) 1 "example.".
Proof.
  split; [reflexivity|]. split; [reflexivity|].
  intros j z Hj Hz. destruct j as [|j]; [|lia].
  injection Hz as <-. reflexivity.
Defined.

Lemma verifyNODATA_unmatched_result_witness :
  verifyNODATA (H := plain) q_ds (rrs (ns_optout 1)) = Ret None.
Proof.
  refine (proj1 (proj2 (proj2 (proj1 (proj2
            (verifyNODATA_unmatched_result (H := plain) q_ds (ns_optout 1) _))
            eq_refl) 1%nat "example." (closestEncloserAt_sub 1))
            (nsec3 "p" "t" 1 []) _)).
  - reflexivity.
  - reflexivity.
Defined.

(** The opt-out example of the specification: the flag decides. *)
Example verifyNODATA_optout_example :
  verifyNODATA (H := plain) q_ds (rrs (ns_optout 0)) = Ret (Some ErrNSECOptOut)
  /\ verifyNODATA (H := plain) q_ds (rrs (ns_optout 1)) = Ret None.
Proof. split; reflexivity. Qed.

(** C4. On a question whose name is matched, [n] being the first record
    that matches it, [verifyNODATA] fails with [ErrNSECTypeExists] exactly
    when the type bitmap of [n] holds the type of the question or CNAME,
    and succeeds when it holds neither. *)
Theorem verifyNODATA_matched_result `{NSEC3Methods}
    (q : Question) (ns : list NSEC3) (n : NSEC3) :
  firstMatch (Name q) ns = Some n ->
  (verifyNODATA q (rrs ns) = Ret (Some ErrNSECTypeExists)
   <-> In (Type' q) (TypeBitMap n) \/ In TypeCNAME (TypeBitMap n))
  /\ (~ In (Type' q) (TypeBitMap n) -> ~ In TypeCNAME (TypeBitMap n) ->
      verifyNODATA q (rrs ns) = Ret None).
Proof.
  intros Hn. rewrite (verifyNODATA_matched q ns n Hn).
  pose proof (typesSet_2 (TypeBitMap n) (Type' q) TypeCNAME) as Hts.
  destruct (typesSet (TypeBitMap n) [Type' q; TypeCNAME]).
  - split; [split; [intros _; apply Hts; reflexivity | reflexivity]|].
    intros Hq Hc. destruct Hts as [Hts _]. destruct (Hts eq_refl); contradiction.
  - split; [|done]. split; [discriminate|].
    intros Hin. apply Hts in Hin. discriminate.
Qed.

Lemma verifyNODATA_matched_result_witness :
  verifyNODATA (H := plain) q_mx (rrs ns_example) = Ret None.
Proof.
  refine (proj2 (verifyNODATA_matched_result (H := plain) q_mx ns_example
                   (nsec3 "example." "f" 0 [TypeNS; TypeSOA]) _) _ _).
  - reflexivity.
  - simpl. unfold TypeNS, TypeSOA. intros [Hx | [Hx | []]]; discriminate.
  - simpl. unfold TypeNS, TypeSOA, TypeCNAME. intros [Hx | [Hx | []]]; discriminate.
Defined.

(** The type-exists example of the specification: the bit of the queried
    type decides. *)
Example verifyNODATA_type_exists_example :
  verifyNODATA (H := plain) q_mx (rrs [nsec3 "example." "f" 0 [TypeNS; TypeSOA; 15]])
  = Ret (Some ErrNSECTypeExists)
  /\ verifyNODATA (H := plain) q_mx (rrs [nsec3 "example." "f" 0 [TypeNS; TypeSOA]])
     = Ret None.
Proof. split; reflexivity. Qed.

(** C2, in the order of the checks.  On a delegation name that is matched,
    [n] being the first record that matches it, [verifyDelegation] fails
    with [ErrNSECNSMissing] when the type bitmap of [n] lacks NS, whatever
    else it holds; it fails with [ErrNSECBadDelegation] when the bitmap holds
    NS and also DS or SOA; it succeeds when the bitmap holds NS and neither
    DS nor SOA. *)
Theorem verifyDelegation_matched_result `{NSEC3Methods}
    (delegation : string) (ns : list NSEC3) (n : NSEC3) :
  firstMatch delegation ns = Some n ->
  (~ In TypeNS (TypeBitMap n) ->
     verifyDelegation delegation (rrs ns) = Ret (Some ErrNSECNSMissing))
  /\ (In TypeNS (TypeBitMap n) ->
      In TypeDS (TypeBitMap n) \/ In TypeSOA (TypeBitMap n) ->
      verifyDelegation delegation (rrs ns) = Ret (Some ErrNSECBadDelegation))
  /\ (In TypeNS (TypeBitMap n) ->
      ~ In TypeDS (TypeBitMap n) -> ~ In TypeSOA (TypeBitMap n) ->
      verifyDelegation delegation (rrs ns) = Ret None).
Proof.
  intros Hn. rewrite (verifyDelegation_matched delegation ns n Hn).
  pose proof (typesSet_1 (TypeBitMap n) TypeNS) as Hns.
  pose proof (typesSet_2 (TypeBitMap n) TypeDS TypeSOA) as Hds.
  destruct (typesSet (TypeBitMap n) [TypeNS]).
  - destruct (typesSet (TypeBitMap n) [TypeDS; TypeSOA]).
    + split; [intros Hno; destruct Hno; apply Hns; reflexivity|]. split; [done|].
      intros _ Hd Hs. destruct Hds as [Hds _].
      destruct (Hds eq_refl); contradiction.
    + split; [intros Hno; destruct Hno; apply Hns; reflexivity|]. split; [|done].
      intros _ Hin. apply Hds in Hin. discriminate.
  - split; [done|]. split; intros Hin; apply Hns in Hin; discriminate.
Qed.

Lemma verifyDelegation_matched_result_witness :
  verifyDelegation (H := plain) "example." (rrs [nsec3 "example." "f" 0 [TypeNS]])
  = Ret None.
Proof.
  refine (proj2 (proj2 (verifyDelegation_matched_result (H := plain)
            "example." [nsec3 "example." "f" 0 [TypeNS]]
            (nsec3 "example." "f" 0 [TypeNS]) _)) _ _ _).
  - reflexivity.
  - simpl. auto.
  - simpl. unfold TypeNS, TypeDS. intros [Hx | []]. discriminate.
  - simpl. unfold TypeNS, TypeSOA. intros [Hx | []]. discriminate.
Defined.

(** A matched record with the DS bit and without the NS bit: the failure
    is [ErrNSECNSMissing], not [ErrNSECBadDelegation]. *)
Lemma verifyDelegation_DS_without_NS_counterexample :
  firstMatch (H := plain) "example." [nsec3 "example." "f" 0 [TypeDS]]
  = Some (nsec3 "example." "f" 0 [TypeDS])
  /\ In TypeDS (TypeBitMap (nsec3 "example." "f" 0 [TypeDS]))
  /\ verifyDelegation (H := plain) "example." (rrs [nsec3 "example." "f" 0 [TypeDS]])
     = Ret (Some ErrNSECNSMissing)
  /\ verifyDelegation (H := plain) "example." (rrs [nsec3 "example." "f" 0 [TypeDS]])
     <> Ret (Some ErrNSECBadDelegation).
Proof.
  split; [reflexivity|]. split; [simpl; auto|].
  split; [reflexivity | discriminate].
Qed.

(** ** The errors the verifiers raise *)

(** Whatever the slice holds, a scan panics, finds a record, or fails with
    [ErrNSECMissingCoverage]. *)
Lemma findMatching_cases `{NSEC3Methods} (name : string) (nsec : list RR) :
  findMatching name nsec = Panic
  \/ (exists types, findMatching name nsec = Ret (types, None))
  \/ findMatching name nsec = Ret ([], Some ErrNSECMissingCoverage).
Proof.
  induction nsec as [|[n|t] nsec IH]; simpl; [auto | | auto].
  destruct (Match n name); [eauto | exact IH].
Qed.

Lemma findCoverer_cases `{NSEC3Methods} (name : string) (nsec : list RR) :
  findCoverer name nsec = Panic
  \/ (exists types optOut, findCoverer name nsec = Ret (types, optOut, None))
  \/ findCoverer name nsec = Ret ([], false, Some ErrNSECMissingCoverage).
Proof.
  induction nsec as [|[n|t] nsec IH]; simpl; [auto | | auto].
  destruct (Cover n name); [eauto | exact IH].
Qed.

Lemma verifyNameError_results `{NSEC3Methods} (q : Question) (nsec : list RR) :
  verifyNameError q nsec = Panic
  \/ In (verifyNameError q nsec) [Ret None; Ret (Some ErrNSECMissingCoverage)].
Proof.
  unfold verifyNameError.
  destruct (findClosestEncloser (Name q) nsec) as [[ce nc]|]; [|by left].
  rewrite bind_Ret. cbv beta iota.
  destruct (String.eqb ce ""); [right; pick_result|].
  destruct (findCoverer_cases (String.append "*." ce) nsec)
    as [-> | [(types & optOut & ->) | ->]];
    [by left | right; pick_result..].
Qed.

Lemma optOutPath_results `{NSEC3Methods} (name : string) (nsec : list RR) :
  optOutPath name nsec = Panic
  \/ In (optOutPath name nsec)
       [Ret None; Ret (Some ErrNSECMissingCoverage); Ret (Some ErrNSECOptOut)].
Proof.
  unfold optOutPath.
  destruct (findClosestEncloser name nsec) as [[ce nc]|]; [|by left].
  rewrite bind_Ret. cbv beta iota.
  destruct (String.eqb ce ""); [right; pick_result|].
  destruct (findCoverer_cases nc nsec)
    as [-> | [(types & optOut & ->) | ->]];
    [by left | | right; pick_result].
  rewrite bind_Ret. cbv beta iota. destruct optOut; right; pick_result.
Qed.

Lemma verifyNODATA_results `{NSEC3Methods} (q : Question) (nsec : list RR) :
  verifyNODATA q nsec = Panic
  \/ In (verifyNODATA q nsec)
       [Ret None; Ret (Some ErrNSECMissingCoverage); Ret (Some ErrNSECOptOut);
        Ret (Some ErrNSECTypeExists)].
Proof.
  unfold verifyNODATA.
  destruct (findMatching_cases (Name q) nsec) as [-> | [(types & ->) | ->]];
    [by left | |]; rewrite bind_Ret; cbv beta iota.
  - destruct (typesSet types _); right; pick_result.
  - destruct (negb (Type' q =? TypeDS)); [right; pick_result|].
    destruct (optOutPath_results (Name q) nsec) as [Hp | Hin]; [by left|].
    right. unfold optOutPath in Hin. simpl in Hin |- *. tauto.
Qed.

Lemma verifyDelegation_results `{NSEC3Methods}
    (delegation : string) (nsec : list RR) :
  verifyDelegation delegation nsec = Panic
  \/ In (verifyDelegation delegation nsec)
       [Ret None; Ret (Some ErrNSECMissingCoverage); Ret (Some ErrNSECOptOut);
        Ret (Some ErrNSECNSMissing); Ret (Some ErrNSECBadDelegation)].
Proof.
  unfold verifyDelegation.
  destruct (findMatching_cases delegation nsec) as [-> | [(types & ->) | ->]];
    [by left | |]; rewrite bind_Ret; cbv beta iota.
  - destruct (typesSet types [TypeNS]); cbn [negb]; [|right; pick_result].
    destruct (typesSet types _); right; pick_result.
  - destruct (optOutPath_results delegation nsec) as [Hp | Hin]; [by left|].
    right. unfold optOutPath in Hin. simpl in Hin |- *. tauto.
Qed.

Lemma never_raised_intro (v : outcome (option error)) :
  v = Panic \/ In v possible_results -> never_raised v.
Proof.
  intros Hv. repeat split; [| |exact Hv]; intros ->;
    destruct Hv as [Hv | Hv]; try discriminate;
    simpl in Hv; intuition discriminate.
Qed.

(** ** Totality on NSEC3 records *)

Section totality.

Context `{NSEC3Methods}.

Lemma findClosestEncloser_returns name ns :
  returns (findClosestEncloser name (rrs ns)).
Proof.
  destruct (closestEncloser_cases name ns) as [Hnone | (i & ce & Hce)].
  - rewrite (findClosestEncloser_none _ _ Hnone). by eexists.
  - rewrite (findClosestEncloser_at _ _ _ _ Hce). by eexists.
Qed.

Lemma verifyNameError_returns q ns : returns (verifyNameError q (rrs ns)).
Proof.
  unfold verifyNameError.
  destruct (findClosestEncloser_returns (Name q) ns) as [[ce nc] ->].
  rewrite bind_Ret. cbv beta iota. destruct (String.eqb ce ""); [by eexists|].
  rewrite findCoverer_rrs, bind_Ret.
  destruct (firstCover _ ns); by eexists.
Qed.

Lemma optOutPath_returns name ns : returns (optOutPath name (rrs ns)).
Proof.
  unfold optOutPath.
  destruct (findClosestEncloser_returns name ns) as [[ce nc] ->].
  rewrite bind_Ret. cbv beta iota. destruct (String.eqb ce ""); [by eexists|].
  rewrite findCoverer_rrs, bind_Ret.
  destruct (firstCover _ ns) as [n|]; [|by eexists].
  cbv beta iota. destruct (optOutFlag n); by eexists.
Qed.

Lemma verifyNODATA_returns q ns : returns (verifyNODATA q (rrs ns)).
Proof.
  destruct (matched (Name q) ns) eqn:Hm.
  - apply firstMatch_matched in Hm as [n Hn].
    rewrite (verifyNODATA_matched _ _ _ Hn). by eexists.
  - rewrite (verifyNODATA_unmatched _ _ Hm).
    destruct (Type' q =? TypeDS); [apply optOutPath_returns | by eexists].
Qed.

Lemma verifyDelegation_returns delegation ns :
  returns (verifyDelegation delegation (rrs ns)).
Proof.
  destruct (matched delegation ns) eqn:Hm.
  - apply firstMatch_matched in Hm as [n Hn].
    rewrite (verifyDelegation_matched _ _ _ Hn). by eexists.
  - rewrite (verifyDelegation_unmatched _ _ Hm). apply optOutPath_returns.
Qed.

Lemma returns_possible (v : outcome (option error)) :
  returns v -> v = Panic \/ In v possible_results -> In v possible_results.
Proof. intros [a ->] [Hv | Hv]; [discriminate | exact Hv]. Qed.

(** A scan that finds its record among the NSEC3 records at the front
    never looks at what follows. *)
Lemma findMatching_app_matched name ns rest :
  matched name ns = true ->
  findMatching name (rrs ns ++ rest) = findMatching name (rrs ns).
Proof.
  unfold matched. induction ns as [|n ns IH]; simpl; [discriminate|].
  destruct (Match n name); simpl; [reflexivity | exact IH].
Qed.

Lemma verifyNODATA_panic q ns rrtype rest :
  matched (Name q) ns = false ->
  verifyNODATA q (rrs ns ++ RR_other rrtype :: rest) = Panic.
Proof.
  intros Hm. unfold verifyNODATA. by rewrite findMatching_panic.
Qed.

Lemma verifyDelegation_panic delegation ns rrtype rest :
  matched delegation ns = false ->
  verifyDelegation delegation (rrs ns ++ RR_other rrtype :: rest) = Panic.
Proof.
  intros Hm. unfold verifyDelegation. by rewrite findMatching_panic.
Qed.

(** The first turn of the search scans for the name itself, the root
    name apart, which has no candidate. *)
Lemma findClosestEncloser_first name nsec :
  name <> "." ->
  findClosestEncloser name nsec =
  '(_, err) ← findMatching name nsec;
  match err with
  | Some _ =>
      findClosestEncloser_loop name (Split name) nsec
        (length (Split name) - 1) 1
  | None => Ret (name, name)
  end.
Proof.
  intros Hname. unfold findClosestEncloser. cbv zeta.
  rewrite (Split_cons name Hname). cbn [length].
  replace (S (length (Split_tail (String.length name) name 0)) - 1)%nat
    with (length (Split_tail (String.length name) name 0)) by lia.
  reflexivity.
Qed.

Lemma verifyNameError_panic q ns rrtype rest :
  Name q <> "." -> matched (Name q) ns = false ->
  verifyNameError q (rrs ns ++ RR_other rrtype :: rest) = Panic.
Proof.
  intros Hname Hm. unfold verifyNameError.
  rewrite (findClosestEncloser_first _ _ Hname).
  by rewrite findMatching_panic.
Qed.

Lemma verifyNameError_panic_coverer q ns rrtype rest :
  Name q <> "." -> Name q <> "" -> matched (Name q) ns = true ->
  covered (String.append "*." (Name q)) ns = false ->
  verifyNameError q (rrs ns ++ RR_other rrtype :: rest) = Panic.
Proof.
  intros Hname Hne Hm Hc. unfold verifyNameError.
  rewrite (findClosestEncloser_first _ _ Hname).
  rewrite (findMatching_app_matched _ _ _ Hm).
  destruct (findMatching_err (Name q) ns) as [types ->]. rewrite Hm.
  rewrite !bind_Ret. cbv beta iota.
  destruct (String.eqb_spec (Name q) "") as [|_]; [contradiction|].
  by rewrite findCoverer_panic.
Qed.

End totality.

(** C8. No verifier ever returns [ErrNSECMismatch] or
    [ErrNSECMultipleCoverage]: on every question, delegation name and slice
    of records, each of [verifyNameError], [verifyNODATA] and
    [verifyDelegation] panics or gives one of the possible results, and on
    a set of NSEC3 records each gives one of them: success,
    [ErrNSECMissingCoverage], [ErrNSECTypeExists], [ErrNSECOptOut],
    [ErrNSECNSMissing] or [ErrNSECBadDelegation]. *)
Theorem verifiers_never_raise_declared_only `{NSEC3Methods}
    (q : Question) (delegation : string) (nsec : list RR) (ns : list NSEC3) :
  never_raised (verifyNameError q nsec)
  /\ never_raised (verifyNODATA q nsec)
  /\ never_raised (verifyDelegation delegation nsec)
  /\ In (verifyNameError q (rrs ns)) possible_results
  /\ In (verifyNODATA q (rrs ns)) possible_results
  /\ In (verifyDelegation delegation (rrs ns)) possible_results.
Proof.
  assert (forall v, v = Panic \/ In v [Ret None; Ret (Some ErrNSECMissingCoverage)]
                    -> v = Panic \/ In v possible_results) as Hne.
  { intros v [Hv | Hv]; [by left | right]. simpl in Hv |- *. tauto. }
  assert (forall v, v = Panic
                    \/ In v [Ret None; Ret (Some ErrNSECMissingCoverage);
                             Ret (Some ErrNSECOptOut); Ret (Some ErrNSECTypeExists)]
                    -> v = Panic \/ In v possible_results) as Hnd.
  { intros v [Hv | Hv]; [by left | right]. simpl in Hv |- *. tauto. }
  assert (forall v, v = Panic
                    \/ In v [Ret None; Ret (Some ErrNSECMissingCoverage);
                             Ret (Some ErrNSECOptOut); Ret (Some ErrNSECNSMissing);
                             Ret (Some ErrNSECBadDelegation)]
                    -> v = Panic \/ In v possible_results) as Hdel.
  { intros v [Hv | Hv]; [by left | right]. simpl in Hv |- *. tauto. }
  split; [apply never_raised_intro, Hne, verifyNameError_results|].
  split; [apply never_raised_intro, Hnd, verifyNODATA_results|].
  split; [apply never_raised_intro, Hdel, verifyDelegation_results|].
  split; [apply returns_possible;
          [apply verifyNameError_returns | apply Hne, verifyNameError_results]|].
  split; [apply returns_possible;
          [apply verifyNODATA_returns | apply Hnd, verifyNODATA_results]|].
  apply returns_possible;
    [apply verifyDelegation_returns | apply Hdel, verifyDelegation_results].
Qed.

(** C10. Every scan asserts, unchecked, that the record at hand is an
    NSEC3 record.  On a slice that holds NSEC3 records only, the scans, the
    closest-encloser search and the three verifiers all return.  A record
    of another type that a scan reaches, no record before it matching
    (respectively covering) the name, makes the scan panic, and with it the
    verifier that runs the scan: [verifyNODATA] and [verifyDelegation] on
    an unmatched name, [verifyNameError] on an unmatched name other than
    the root, and [verifyNameError] on a matched name whose wildcard no
    record before covers. *)
Theorem scans_assume_NSEC3 :
  (forall (H : NSEC3Methods) (nsec : list RR),
      Forall is_NSEC3 nsec ->
      (forall name,
          returns (findMatching name nsec)
          /\ returns (findCoverer name nsec)
          /\ returns (findClosestEncloser name nsec)
          /\ returns (verifyDelegation name nsec))
      /\ (forall q,
            returns (verifyNameError q nsec) /\ returns (verifyNODATA q nsec)))
  /\ (forall (H : NSEC3Methods) (ns : list NSEC3) (rrtype : Z) (rest : list RR)
             (name : string) (q : Question),
        (matched name ns = false ->
           findMatching name (rrs ns ++ RR_other rrtype :: rest) = Panic
           /\ verifyDelegation name (rrs ns ++ RR_other rrtype :: rest) = Panic)
        /\ (covered name ns = false ->
              findCoverer name (rrs ns ++ RR_other rrtype :: rest) = Panic)
        /\ (matched (Name q) ns = false ->
              verifyNODATA q (rrs ns ++ RR_other rrtype :: rest) = Panic
              /\ (Name q <> "." ->
                  verifyNameError q (rrs ns ++ RR_other rrtype :: rest) = Panic))
        /\ (matched (Name q) ns = true -> Name q <> "." -> Name q <> "" ->
            covered (String.append "*." (Name q)) ns = false ->
            verifyNameError q (rrs ns ++ RR_other rrtype :: rest) = Panic)).
Proof.
  split.
  - intros H nsec [ns ->]%is_NSEC3_rrs. split.
    + intros name. rewrite findMatching_rrs, findCoverer_rrs.
      split; [by eexists|]. split; [by eexists|].
      split; [apply findClosestEncloser_returns | apply verifyDelegation_returns].
    + intros q. split; [apply verifyNameError_returns | apply verifyNODATA_returns].
  - intros H ns rrtype rest name q.
    split; [intros Hm; split;
            [by apply findMatching_panic | by apply verifyDelegation_panic]|].
    split; [by apply findCoverer_panic|].
    split; [intros Hm; split;
            [by apply verifyNODATA_panic | intros Hname; by apply verifyNameError_panic]|].
    intros Hm Hname Hne Hc. by apply verifyNameError_panic_coverer.
Qed.

Lemma scans_assume_NSEC3_witness :
  returns (findMatching (H := plain) "example." (rrs ns_nxdomain))
  /\ returns (verifyNameError (H := plain) q_nx (rrs ns_nxdomain))
  /\ findMatching (H := plain) "nx.example." (rrs ns_example ++ [RR_other 46])
     = Panic
  /\ verifyNODATA (H := plain) q_nx (rrs ns_example ++ [RR_other 46]) = Panic.
Proof.
  pose proof (proj1 scans_assume_NSEC3 plain (rrs ns_nxdomain)
                (rrs_is_NSEC3 ns_nxdomain)) as [Hname Hq].
  pose proof (proj2 scans_assume_NSEC3 plain ns_example 46 [] "nx.example." q_nx)
    as (Hm & _ & Hnd & _).
  split; [exact (proj1 (Hname "example."))|].
  split; [exact (proj1 (Hq q_nx))|].
  split; [exact (proj1 (Hm eq_refl)) | exact (proj1 (Hnd eq_refl))].
Defined.

(** ** Further properties of nsec.go *)

(** *** [typesSet] *)

(** X1. [typesSet(set, types...)] holds exactly when some type of [set]
    is one of [types]; so it does not change when the two lists change
    places, and it is false as soon as one of them is empty. *)
Theorem typesSet_intersects (set types : list Z) :
  (typesSet set types = true <-> exists t, In t set /\ In t types)
  /\ typesSet set types = typesSet types set
  /\ typesSet [] types = false
  /\ typesSet set [] = false.
Proof.
  split; [apply typesSet_true|]. split; [|split].
  - apply eq_true_iff_eq. rewrite !typesSet_true.
    split; intros (t & H1 & H2); eauto.
  - reflexivity.
  - apply not_true_is_false. rewrite typesSet_true. intros (t & _ & []).
Qed.

(** *** The two opt-out paths *)

(** X2. Unless a record matches the name, [verifyDelegation] on a name
    does what [verifyNODATA] does on the DS question for that name, on
    every slice of records: the two opt-out paths agree, panics
    included. *)
Theorem verifyDelegation_as_DS_NODATA `{NSEC3Methods}
    (delegation : string) (nsec : list RR) :
  (exists types, findMatching delegation nsec = Ret (types, None))
  \/ verifyDelegation delegation nsec
     = verifyNODATA {| Name := delegation; Type' := TypeDS |} nsec.
Proof.
  destruct (findMatching_cases delegation nsec) as [Hp | [Hm | He]].
  - right. unfold verifyDelegation, verifyNODATA. cbn [Name Type'].
    by rewrite Hp.
  - by left.
  - right. unfold verifyDelegation, verifyNODATA. cbn [Name Type'].
    by rewrite He.
Qed.

(** X3. On a delegation name that no record matches, [verifyDelegation]
    fails with [ErrNSECMissingCoverage] when no candidate of the label
    path is matched.  When there is a closest encloser, it is a proper
    ancestor of the name; the call fails with [ErrNSECMissingCoverage] if
    no record covers the next closer name, and otherwise, [n] being the
    first record that covers it, succeeds if the opt-out flag of [n] is
    set and fails with [ErrNSECOptOut] if it is not. *)
Theorem verifyDelegation_unmatched_result `{NSEC3Methods}
    (delegation : string) (ns : list NSEC3) :
  matched delegation ns = false ->
  ((forall z, In z (labelPath delegation) -> matched z ns = false) ->
     verifyDelegation delegation (rrs ns) = Ret (Some ErrNSECMissingCoverage))
  /\ (forall i ce, closestEncloserAt delegation ns i ce ->
        (0 < i)%nat
        /\ (covered (nextCloser delegation i) ns = false ->
              verifyDelegation delegation (rrs ns)
              = Ret (Some ErrNSECMissingCoverage))
        /\ (forall n, firstCover (nextCloser delegation i) ns = Some n ->
              verifyDelegation delegation (rrs ns)
              = Ret (if optOutFlag n then None else Some ErrNSECOptOut)))
  /\ ((forall z, In z (labelPath delegation) -> matched z ns = false)
      \/ exists i ce, closestEncloserAt delegation ns i ce).
Proof.
  intros Hm. rewrite (verifyDelegation_unmatched delegation ns Hm).
  split; [apply optOutPath_none|]. split; [|apply closestEncloser_cases].
  intros i ce Hce.
  pose proof (closestEncloserAt_unmatched _ _ _ _ Hce Hm) as Hne.
  rewrite (optOutPath_at _ _ _ _ Hce Hne). split; [|split].
  - destruct i as [|i]; [|lia]. destruct Hce as (Hz & Hmz & _).
    apply labelPath_lookup_0 in Hz. congruence.
  - by intros ->%firstCover_uncovered.
  - by intros n ->.
Qed.

Lemma verifyDelegation_unmatched_result_witness :
  verifyDelegation (H := plain) "sub.example." (rrs (ns_optout 1)) = Ret None.
Proof.
  refine (proj2 (proj2 (proj1 (proj2
            (verifyDelegation_unmatched_result (H := plain)
               "sub.example." (ns_optout 1) _))
            1%nat "example." (closestEncloserAt_sub 1)))
            (nsec3 "p" "t" 1 []) _).
  - reflexivity.
  - reflexivity.
Defined.

(** *** The errors of each verifier *)

(** X4. On every slice of records, [verifyNameError] panics, succeeds or
    fails with [ErrNSECMissingCoverage], and with nothing else;
    [verifyNODATA] may also fail with [ErrNSECOptOut] or
    [ErrNSECTypeExists], but never with the two delegation errors;
    [verifyDelegation] may fail with [ErrNSECOptOut], [ErrNSECNSMissing]
    or [ErrNSECBadDelegation], but never with [ErrNSECTypeExists].
    [verifyNODATA] raises [ErrNSECOptOut] for DS questions only. *)
Theorem verifiers_error_sets `{NSEC3Methods}
    (q : Question) (delegation : string) (nsec : list RR) :
  (verifyNameError q nsec = Panic
   \/ In (verifyNameError q nsec) [Ret None; Ret (Some ErrNSECMissingCoverage)])
  /\ (verifyNODATA q nsec = Panic
      \/ In (verifyNODATA q nsec)
           [Ret None; Ret (Some ErrNSECMissingCoverage);
            Ret (Some ErrNSECOptOut); Ret (Some ErrNSECTypeExists)])
  /\ (verifyDelegation delegation nsec = Panic
      \/ In (verifyDelegation delegation nsec)
           [Ret None; Ret (Some ErrNSECMissingCoverage);
            Ret (Some ErrNSECOptOut); Ret (Some ErrNSECNSMissing);
            Ret (Some ErrNSECBadDelegation)])
  /\ (Type' q <> TypeDS -> verifyNODATA q nsec <> Ret (Some ErrNSECOptOut)).
Proof.
  split; [apply verifyNameError_results|].
  split; [apply verifyNODATA_results|].
  split; [apply verifyDelegation_results|].
  intros Hty%Z.eqb_neq. unfold verifyNODATA.
  destruct (findMatching_cases (Name q) nsec) as [-> | [(types & ->) | ->]];
    [discriminate | |]; rewrite bind_Ret; cbv beta iota.
  - by destruct (typesSet types _).
  - by rewrite Hty.
Qed.

Lemma verifiers_error_sets_witness :
  verifyNODATA (H := plain) q_mx (rrs ns_other) <> Ret (Some ErrNSECOptOut).
Proof.
  refine (proj2 (proj2 (proj2 (verifiers_error_sets (H := plain)
            q_mx "example." (rrs ns_other)))) _).
  discriminate.
Defined.

(** *** The order of the records *)

Section order.

Context `{NSEC3Methods}.

Lemma matched_same_members name ns ns' :
  (forall n, In n ns <-> In n ns') -> matched name ns = matched name ns'.
Proof.
  intros Hin. apply eq_true_iff_eq. unfold matched.
  rewrite !existsb_exists. split; intros (n & Hn & Hm); exists n;
    (split; [by apply Hin | done]).
Qed.

Lemma covered_same_members name ns ns' :
  (forall n, In n ns <-> In n ns') -> covered name ns = covered name ns'.
Proof.
  intros Hin. apply eq_true_iff_eq. unfold covered.
  rewrite !existsb_exists. split; intros (n & Hn & Hm); exists n;
    (split; [by apply Hin | done]).
Qed.

(** The search reads the records through [matched] alone. *)
Lemma findClosestEncloser_ext name ns ns' :
  (forall z, matched z ns = matched z ns') ->
  findClosestEncloser name (rrs ns) = findClosestEncloser name (rrs ns').
Proof.
  intros Hm.
  destruct (closestEncloser_cases name ns) as [Hnone | (i & ce & Hce)].
  - rewrite (findClosestEncloser_none _ _ Hnone).
    symmetry. apply findClosestEncloser_none.
    intros z Hz. rewrite <- Hm. by apply Hnone.
  - rewrite (findClosestEncloser_at _ _ _ _ Hce).
    symmetry. apply findClosestEncloser_at.
    destruct Hce as (Hz & Hmz & Hmiss). split; [done|]. split.
    + by rewrite <- Hm.
    + intros j z Hj Hjz. rewrite <- Hm. by eapply Hmiss.
Qed.

(** [verifyNameError] reads them through [matched] and [covered]. *)
Lemma verifyNameError_covered q ns :
  exists ce nc,
    findClosestEncloser (Name q) (rrs ns) = Ret (ce, nc)
    /\ verifyNameError q (rrs ns) =
       Ret (if String.eqb ce "" then Some ErrNSECMissingCoverage
            else if covered (String.append "*." ce) ns then None
                 else Some ErrNSECMissingCoverage).
Proof.
  destruct (findClosestEncloser_returns (Name q) ns) as [[ce nc] Hr].
  exists ce, nc. split; [done|]. unfold verifyNameError.
  rewrite Hr, bind_Ret. cbv beta iota.
  destruct (String.eqb ce ""); [reflexivity|].
  rewrite findCoverer_rrs, bind_Ret.
  destruct (covered (String.append "*." ce) ns) eqn:Hc.
  - by apply firstCover_covered in Hc as [n ->].
  - by apply firstCover_uncovered in Hc as ->.
Qed.

Lemma verifyNameError_ext q ns ns' :
  (forall z, matched z ns = matched z ns') ->
  (forall z, covered z ns = covered z ns') ->
  verifyNameError q (rrs ns) = verifyNameError q (rrs ns').
Proof.
  intros Hm Hc.
  destruct (verifyNameError_covered q ns) as (ce & nc & Hr & ->).
  destruct (verifyNameError_covered q ns') as (ce' & nc' & Hr' & ->).
  rewrite (findClosestEncloser_ext _ _ _ Hm), Hr' in Hr.
  injection Hr as <- <-. by rewrite Hc.
Qed.

(** With one record to find at most, the scan finds the same record in
    every order. *)
Lemma find_same_members (P : NSEC3 -> bool) ns ns' :
  (forall a b, In a ns -> In b ns -> P a = true -> P b = true -> a = b) ->
  (forall n, In n ns <-> In n ns') ->
  List.find P ns = List.find P ns'.
Proof.
  intros Huniq Hin.
  destruct (List.find P ns) as [a|] eqn:Ha, (List.find P ns') as [b|] eqn:Hb;
    [| | |reflexivity].
  - apply find_some in Ha as [Ha Hpa]. apply find_some in Hb as [Hb Hpb].
    f_equal. apply Huniq; [done | by apply Hin | done..].
  - apply find_some in Ha as [Ha Hpa].
    pose proof (find_none _ _ Hb a (proj1 (Hin a) Ha)). congruence.
  - apply find_some in Hb as [Hb Hpb].
    pose proof (find_none _ _ Ha b (proj2 (Hin b) Hb)). congruence.
Qed.

Lemma findMatching_same_members name ns ns' :
  unambiguous ns -> (forall n, In n ns <-> In n ns') ->
  findMatching name (rrs ns) = findMatching name (rrs ns').
Proof.
  intros Hu Hin. rewrite !findMatching_rrs. unfold firstMatch.
  rewrite (find_same_members _ ns ns'); [reflexivity | | done].
  intros a b Ha Hb. apply (Hu name a b Ha Hb).
Qed.

Lemma findCoverer_same_members name ns ns' :
  unambiguous ns -> (forall n, In n ns <-> In n ns') ->
  findCoverer name (rrs ns) = findCoverer name (rrs ns').
Proof.
  intros Hu Hin. rewrite !findCoverer_rrs. unfold firstCover.
  rewrite (find_same_members _ ns ns'); [reflexivity | | done].
  intros a b Ha Hb. apply (Hu name a b Ha Hb).
Qed.

Lemma Permutation_members (ns ns' : list NSEC3) :
  Permutation ns ns' -> forall n, In n ns <-> In n ns'.
Proof.
  intros Hp n. split; apply Permutation_in; [done | by symmetry].
Qed.

End order.

(** X5. The closest-encloser search and [verifyNameError] read a set of
    NSEC3 records only through which names some record matches and which
    names some record covers: they give the same result on every
    reordering of the set, ambiguous or not. *)
Theorem verifyNameError_order_independent `{NSEC3Methods}
    (q : Question) (ns ns' : list NSEC3) :
  Permutation ns ns' ->
  findClosestEncloser (Name q) (rrs ns) = findClosestEncloser (Name q) (rrs ns')
  /\ verifyNameError q (rrs ns) = verifyNameError q (rrs ns').
Proof.
  intros Hp. pose proof (Permutation_members _ _ Hp) as Hin. split.
  - apply findClosestEncloser_ext. intros z. by apply matched_same_members.
  - apply verifyNameError_ext; intros z;
      [by apply matched_same_members | by apply covered_same_members].
Qed.

Lemma verifyNameError_order_independent_witness :
  verifyNameError (H := plain) q_nx (rrs ns_nxdomain)
  = verifyNameError (H := plain) q_nx
      (rrs [nsec3 "!" "a" 0 []; nsec3 "example." "f" 0 [TypeNS; TypeSOA]]).
Proof.
  refine (proj2 (verifyNameError_order_independent (H := plain) q_nx
                   ns_nxdomain _ _)).
  apply perm_swap.
Defined.

(** X6. On a set in which no name is matched by two records nor covered by
    two, the two scans, [verifyNODATA] and [verifyDelegation] give the
    same result on every reordering.  Without that, the first hit wins and
    the verdict may depend on the order: of two records that match the
    name of an MX question, one with the MX bit and one without, the
    first decides between success and [ErrNSECTypeExists]. *)
Theorem verdict_order_independent_when_unambiguous :
  (forall (H : NSEC3Methods) (q : Question) (delegation : string)
          (ns ns' : list NSEC3),
      Permutation ns ns' -> unambiguous ns ->
      (forall name,
          findMatching name (rrs ns) = findMatching name (rrs ns')
          /\ findCoverer name (rrs ns) = findCoverer name (rrs ns'))
      /\ verifyNODATA q (rrs ns) = verifyNODATA q (rrs ns')
      /\ verifyDelegation delegation (rrs ns)
         = verifyDelegation delegation (rrs ns'))
  /\ (exists (H : NSEC3Methods) (q : Question) (ns ns' : list NSEC3),
        Permutation ns ns'
        /\ verifyNODATA q (rrs ns) = Ret None
        /\ verifyNODATA q (rrs ns') = Ret (Some ErrNSECTypeExists)).
Proof.
  split.
  - intros H q delegation ns ns' Hp Hu.
    pose proof (Permutation_members _ _ Hp) as Hin.
    assert (forall name, findMatching name (rrs ns) = findMatching name (rrs ns'))
      as Hfm by (intros; by apply findMatching_same_members).
    assert (forall name, findCoverer name (rrs ns) = findCoverer name (rrs ns'))
      as Hfc by (intros; by apply findCoverer_same_members).
    assert (forall name, findClosestEncloser name (rrs ns)
                         = findClosestEncloser name (rrs ns')) as Hce.
    { intros name. apply findClosestEncloser_ext.
      intros z. by apply matched_same_members. }
    split; [by split|]. split.
    + unfold verifyNODATA. rewrite Hfm, Hce.
      destruct (findMatching (Name q) (rrs ns')) as [[types [e|]]|]; try done.
      rewrite !bind_Ret. cbv beta iota.
      destruct (negb (Type' q =? TypeDS)); [done|].
      destruct (findClosestEncloser (Name q) (rrs ns')) as [[ce nc]|]; [|done].
      rewrite !bind_Ret. cbv beta iota. by rewrite Hfc.
    + unfold verifyDelegation. rewrite Hfm, Hce.
      destruct (findMatching delegation (rrs ns')) as [[types [e|]]|]; try done.
      rewrite !bind_Ret. cbv beta iota.
      destruct (findClosestEncloser delegation (rrs ns')) as [[ce nc]|]; [|done].
      rewrite !bind_Ret. cbv beta iota. by rewrite Hfc.
  - exists plain, q_mx, ns_two_matches,
      [nsec3 "example." "f" 0 [TypeNS; TypeSOA; 15];
       nsec3 "example." "f" 0 [TypeNS; TypeSOA]].
    split; [apply perm_swap|]. split; reflexivity.
Qed.

Lemma ltb_empty (s : string) : String.ltb s "" = false.
Proof. by destruct s. Qed.

Lemma unambiguous_two_zones : unambiguous (H := plain) ns_two_zones.
Proof.
  intros name n1 n2 [<- | [<- | []]] [<- | [<- | []]];
    (split; intros H1 H2; try reflexivity).
  - apply String.eqb_eq in H1, H2. simpl in H1, H2. congruence.
  - cbn [Cover plain nsec3 Hdr_Name NextDomain] in H2.
    rewrite ltb_empty, andb_false_r in H2. discriminate.
  - apply String.eqb_eq in H1, H2. simpl in H1, H2. congruence.
  - cbn [Cover plain nsec3 Hdr_Name NextDomain] in H1.
    rewrite ltb_empty, andb_false_r in H1. discriminate.
Defined.

Lemma verdict_order_independent_when_unambiguous_witness :
  verifyNODATA (H := plain) q_mx (rrs ns_two_zones)
  = verifyNODATA (H := plain) q_mx
      (rrs [nsec3 "other." "" 0 [TypeNS]; nsec3 "example." "f" 0 [TypeNS; TypeSOA]]).
Proof.
  refine (proj1 (proj2 (proj1 verdict_order_independent_when_unambiguous
            plain q_mx "example." ns_two_zones _ _ unambiguous_two_zones))).
  apply perm_swap.
Defined.

(** *** Records after the first hit *)

Lemma findCoverer_app_covered `{NSEC3Methods} name ns rest :
  covered name ns = true ->
  findCoverer name (rrs ns ++ rest) = findCoverer name (rrs ns).
Proof.
  unfold covered. induction ns as [|n ns IH]; simpl; [discriminate|].
  destruct (Cover n name); simpl; [reflexivity | exact IH].
Qed.

(** X7. A scan stops at its first hit: when a record of the NSEC3 records
    at the front of a slice matches (covers) the name, [findMatching]
    ([findCoverer]) returns what it returns on the front alone, whatever
    follows, a record of another type included.  So do [verifyNODATA] and
    [verifyDelegation] on a matched name, which scan once. *)
Theorem scans_stop_at_first_hit `{NSEC3Methods}
    (name : string) (ns : list NSEC3) (rest : list RR) :
  (matched name ns = true ->
     findMatching name (rrs ns ++ rest) = findMatching name (rrs ns)
     /\ verifyDelegation name (rrs ns ++ rest) = verifyDelegation name (rrs ns)
     /\ forall t,
          verifyNODATA {| Name := name; Type' := t |} (rrs ns ++ rest)
          = verifyNODATA {| Name := name; Type' := t |} (rrs ns))
  /\ (covered name ns = true ->
        findCoverer name (rrs ns ++ rest) = findCoverer name (rrs ns)).
Proof.
  split; [|apply findCoverer_app_covered].
  intros Hm. pose proof (findMatching_app_matched name ns rest Hm) as Hfm.
  pose proof Hm as [n Hn]%firstMatch_matched.
  split; [exact Hfm|]. split.
  - unfold verifyDelegation. rewrite Hfm, findMatching_rrs, Hn. reflexivity.
  - intros t. unfold verifyNODATA. cbn [Name Type'].
    rewrite Hfm, findMatching_rrs, Hn. reflexivity.
Qed.

Lemma scans_stop_at_first_hit_witness :
  verifyDelegation (H := plain) "example."
    (rrs [nsec3 "example." "f" 0 [TypeNS]] ++ [RR_other 46])
  = verifyDelegation (H := plain) "example."
      (rrs [nsec3 "example." "f" 0 [TypeNS]]).
Proof.
  refine (proj1 (proj2 (proj1 (scans_stop_at_first_hit (H := plain)
            "example." [nsec3 "example." "f" 0 [TypeNS]] [RR_other 46]) _))).
  reflexivity.
Defined.

(** *** The result of the search *)

Lemma string_drop_drop a b s :
  string_drop a (string_drop b s) = string_drop (b + a) s.
Proof.
  revert s. induction b as [|b IH]; intros s; [reflexivity|].
  destruct s as [|c s]; simpl.
  - by destruct a.
  - apply IH.
Qed.

(** X8. On a set of NSEC3 records [findClosestEncloser] returns a pair
    [(ce, nc)].  For a non-empty name, [ce] is the empty string exactly
    when no candidate of the label path is matched, so that the test
    [ce == ""] of the callers loses nothing; and [nc] is empty with [ce].
    When [ce] is not empty, some record matches it, [ce] is a suffix of
    [nc] and [nc] a suffix of the name, and no record matches [nc] unless
    [nc] is [ce] itself. *)
Theorem findClosestEncloser_sentinel `{NSEC3Methods}
    (name : string) (ns : list NSEC3) :
  exists ce nc,
    findClosestEncloser name (rrs ns) = Ret (ce, nc)
    /\ (ce = "" -> nc = "")
    /\ (name <> "" ->
        (ce = "" <-> forall z, In z (labelPath name) -> matched z ns = false))
    /\ (ce <> "" ->
        matched ce ns = true
        /\ (exists pre, nc = String.append pre ce)
        /\ (exists pre, name = String.append pre nc)
        /\ (nc <> ce -> matched nc ns = false)).
Proof.
  destruct (closestEncloser_cases name ns) as [Hnone | (i & ce & Hce)].
  - exists "", "". split; [by apply findClosestEncloser_none|].
    split; [done|]. split; [done|]. done.
  - exists ce, (nextCloser name i).
    split; [by apply findClosestEncloser_at|].
    pose proof Hce as (Hz & Hm & Hmiss).
    split; [|split].
    + intros ->. pose proof (labelPath_empty _ _ Hz) as ->.
      destruct i as [|j]; [reflexivity|].
      apply labelPath_lookup_S in Hz. simpl in Hz. lia.
    + intros Hname. split.
      * intros ->. by apply labelPath_empty in Hz.
      * intros Hnone. rewrite Hnone in Hm; [discriminate|].
        by apply list_elem_of_lookup_2, list_elem_of_In in Hz.
    + intros _. split; [exact Hm|].
      destruct i as [|j].
      * apply labelPath_lookup_0 in Hz as ->. simpl.
        split; [by exists ""|]. split; [by exists ""|]. done.
      * pose proof Hz as (k & Hk & ->)%labelPath_lookup.
        assert (is_Some (Split name !! j)) as [p Hp].
        { apply lookup_lt_is_Some. apply lookup_lt_Some in Hk. lia. }
        assert (labelPath name !! j = Some (string_drop p name)) as Hj
          by (apply labelPath_lookup; eauto).
        unfold nextCloser. rewrite Hj. simpl default.
        pose proof (Split_lookup_next _ _ _ _ Hp Hk) as Hnext.
        apply NextLabel_bounds in Hnext.
        split; [|split; [apply string_drop_suffix|]].
        -- replace k with (p + (k - p))%nat by lia.
           rewrite <- string_drop_drop. apply string_drop_suffix.
        -- intros _. apply (Hmiss j); [lia | done].
Qed.

(** *** Edge cases: the root name and the empty set *)

(** X9. The root name has no closest encloser: on every slice of records,
    of whatever types, [findClosestEncloser] returns the pair of empty
    strings for "." without a scan, and [verifyNameError] fails with
    [ErrNSECMissingCoverage] on every question for "."; when
    [findMatching] finds no record for ".", [verifyDelegation] and
    [verifyNODATA] on the DS question fail with [ErrNSECMissingCoverage]
    too. *)
Theorem root_name_has_no_encloser `{NSEC3Methods} (nsec : list RR) (t : Z) :
  findClosestEncloser "." nsec = Ret ("", "")
  /\ verifyNameError {| Name := "."; Type' := t |} nsec
     = Ret (Some ErrNSECMissingCoverage)
  /\ (forall types e, findMatching "." nsec = Ret (types, Some e) ->
        verifyDelegation "." nsec = Ret (Some ErrNSECMissingCoverage)
        /\ verifyNODATA {| Name := "."; Type' := TypeDS |} nsec
           = Ret (Some ErrNSECMissingCoverage)).
Proof.
  split; [reflexivity|]. split; [reflexivity|].
  intros types e Hfm. unfold verifyDelegation, verifyNODATA. cbn [Name Type'].
  rewrite Hfm. split; reflexivity.
Qed.

Lemma root_name_has_no_encloser_witness :
  verifyDelegation (H := plain) "." (rrs ns_example)
  = Ret (Some ErrNSECMissingCoverage).
Proof.
  refine (proj1 (proj2 (proj2 (root_name_has_no_encloser (H := plain)
            (rrs ns_example) 1)) [] ErrNSECMissingCoverage _)).
  reflexivity.
Defined.

(** X10. The empty record set proves nothing: on it the search finds no
    closest encloser for any name, and the three verifiers fail with
    [ErrNSECMissingCoverage] on every question and delegation name. *)
Theorem empty_set_proves_nothing `{NSEC3Methods}
    (q : Question) (delegation : string) :
  findClosestEncloser (Name q) [] = Ret ("", "")
  /\ verifyNameError q [] = Ret (Some ErrNSECMissingCoverage)
  /\ verifyNODATA q [] = Ret (Some ErrNSECMissingCoverage)
  /\ verifyDelegation delegation [] = Ret (Some ErrNSECMissingCoverage).
Proof.
  assert (forall name, noEncloser name []) as Hnone by (intros name z _; done).
  split; [apply (findClosestEncloser_none (Name q) []), Hnone|].
  split; [apply (verifyNameError_none q []), Hnone|]. split.
  - change [] with (rrs []). rewrite verifyNODATA_unmatched by done.
    destruct (Type' q =? TypeDS); [|reflexivity].
    apply optOutPath_none, Hnone.
  - change [] with (rrs []). rewrite verifyDelegation_unmatched by done.
    apply optOutPath_none, Hnone.
Qed.

(** *** What an accepted proof shows *)

(** X11. [verifyNameError] accepts a set of NSEC3 records exactly when
    the name has a closest encloser, the first matched candidate of its
    label path, that is not the empty string, and some record covers the
    wildcard name "*." followed by that encloser. *)
Theorem verifyNameError_accepts_iff `{NSEC3Methods}
    (q : Question) (ns : list NSEC3) :
  verifyNameError q (rrs ns) = Ret None
  <-> exists i ce,
        closestEncloserAt (Name q) ns i ce
        /\ ce <> ""
        /\ covered (String.append "*." ce) ns = true.
Proof.
  split.
  - intros Hok.
    destruct (closestEncloser_cases (Name q) ns) as [Hnone | (i & ce & Hce)].
    + rewrite (verifyNameError_none _ _ Hnone) in Hok. discriminate.
    + exists i, ce. split; [done|].
      destruct (verifyNameError_covered q ns) as (ce' & nc & Hr & Hv).
      rewrite (findClosestEncloser_at _ _ _ _ Hce) in Hr.
      injection Hr as <- <-. rewrite Hv in Hok.
      destruct (String.eqb_spec ce "") as [|Hne]; [discriminate|].
      split; [done|].
      by destruct (covered (String.append "*." ce) ns).
  - intros (i & ce & Hce & Hne & Hc).
    by rewrite (verifyNameError_at _ _ _ _ Hce Hne), Hc.
Qed.

(** X12. [verifyNODATA] accepts a set of NSEC3 records exactly in two
    cases: the first record that matches the name has neither the type
    of the question nor CNAME in its bitmap; or no record matches the
    name, the type is DS, the name has a closest encloser, and the first
    record that covers the next closer name has its opt-out flag set. *)
Theorem verifyNODATA_accepts_iff `{NSEC3Methods}
    (q : Question) (ns : list NSEC3) :
  verifyNODATA q (rrs ns) = Ret None
  <-> (exists n, firstMatch (Name q) ns = Some n
                 /\ ~ In (Type' q) (TypeBitMap n)
                 /\ ~ In TypeCNAME (TypeBitMap n))
      \/ (matched (Name q) ns = false
          /\ Type' q = TypeDS
          /\ exists i ce n,
               closestEncloserAt (Name q) ns i ce
               /\ firstCover (nextCloser (Name q) i) ns = Some n
               /\ optOutFlag n = true).
Proof.
  split.
  - intros Hok. destruct (matched (Name q) ns) eqn:Hm.
    + left. apply firstMatch_matched in Hm as [n Hn]. exists n.
      split; [done|]. rewrite (verifyNODATA_matched _ _ _ Hn) in Hok.
      pose proof (typesSet_2 (TypeBitMap n) (Type' q) TypeCNAME) as Hts.
      destruct (typesSet (TypeBitMap n) [Type' q; TypeCNAME]); [discriminate|].
      split; intros Hin; assert (false = true) by (apply Hts; auto);
        discriminate.
    + right. split; [done|]. rewrite (verifyNODATA_unmatched _ _ Hm) in Hok.
      destruct (Z.eqb_spec (Type' q) TypeDS) as [Hds|]; [|discriminate].
      split; [done|].
      destruct (closestEncloser_cases (Name q) ns) as [Hnone | (i & ce & Hce)].
      * rewrite (optOutPath_none _ _ Hnone) in Hok. discriminate.
      * pose proof (closestEncloserAt_unmatched _ _ _ _ Hce Hm) as Hne.
        rewrite (optOutPath_at _ _ _ _ Hce Hne) in Hok.
        destruct (firstCover (nextCloser (Name q) i) ns) as [n|] eqn:Hn;
          [|discriminate].
        exists i, ce, n. split; [done|]. split; [done|].
        by destruct (optOutFlag n).
  - intros [(n & Hn & Hq & Hc) | (Hm & Hds & i & ce & n & Hce & Hn & Hopt)].
    + rewrite (verifyNODATA_matched _ _ _ Hn).
      pose proof (typesSet_2 (TypeBitMap n) (Type' q) TypeCNAME) as [Hts _].
      destruct (typesSet (TypeBitMap n) [Type' q; TypeCNAME]); [|reflexivity].
      destruct (Hts eq_refl); contradiction.
    + rewrite (verifyNODATA_unmatched _ _ Hm), Hds, Z.eqb_refl.
      pose proof (closestEncloserAt_unmatched _ _ _ _ Hce Hm) as Hne.
      by rewrite (optOutPath_at _ _ _ _ Hce Hne), Hn, Hopt.
Qed.

(** X13. [verifyDelegation] accepts a set of NSEC3 records exactly in two
    cases: the first record that matches the name has NS and neither DS
    nor SOA in its bitmap; or no record matches the name, the name has a
    closest encloser, and the first record that covers the next closer
    name has its opt-out flag set. *)
Theorem verifyDelegation_accepts_iff `{NSEC3Methods}
    (delegation : string) (ns : list NSEC3) :
  verifyDelegation delegation (rrs ns) = Ret None
  <-> (exists n, firstMatch delegation ns = Some n
                 /\ In TypeNS (TypeBitMap n)
                 /\ ~ In TypeDS (TypeBitMap n)
                 /\ ~ In TypeSOA (TypeBitMap n))
      \/ (matched delegation ns = false
          /\ exists i ce n,
               closestEncloserAt delegation ns i ce
               /\ firstCover (nextCloser delegation i) ns = Some n
               /\ optOutFlag n = true).
Proof.
  split.
  - intros Hok. destruct (matched delegation ns) eqn:Hm.
    + left. apply firstMatch_matched in Hm as [n Hn]. exists n.
      split; [done|]. rewrite (verifyDelegation_matched _ _ _ Hn) in Hok.
      pose proof (typesSet_1 (TypeBitMap n) TypeNS) as Hns.
      pose proof (typesSet_2 (TypeBitMap n) TypeDS TypeSOA) as Hds.
      destruct (typesSet (TypeBitMap n) [TypeNS]); [|discriminate].
      destruct (typesSet (TypeBitMap n) [TypeDS; TypeSOA]); [discriminate|].
      split; [by apply Hns|].
      split; intros Hin; assert (false = true) by (apply Hds; auto);
        discriminate.
    + right. split; [done|]. rewrite (verifyDelegation_unmatched _ _ Hm) in Hok.
      destruct (closestEncloser_cases delegation ns) as [Hnone | (i & ce & Hce)].
      * rewrite (optOutPath_none _ _ Hnone) in Hok. discriminate.
      * pose proof (closestEncloserAt_unmatched _ _ _ _ Hce Hm) as Hne.
        rewrite (optOutPath_at _ _ _ _ Hce Hne) in Hok.
        destruct (firstCover (nextCloser delegation i) ns) as [n|] eqn:Hn;
          [|discriminate].
        exists i, ce, n. split; [done|]. split; [done|].
        by destruct (optOutFlag n).
  - intros [(n & Hn & Hns & Hds & Hsoa) | (Hm & i & ce & n & Hce & Hn & Hopt)].
    + rewrite (verifyDelegation_matched _ _ _ Hn).
      pose proof (typesSet_1 (TypeBitMap n) TypeNS) as [_ Hns'].
      pose proof (typesSet_2 (TypeBitMap n) TypeDS TypeSOA) as [Hts _].
      rewrite (Hns' Hns).
      destruct (typesSet (TypeBitMap n) [TypeDS; TypeSOA]); [|reflexivity].
      destruct (Hts eq_refl); contradiction.
    + rewrite (verifyDelegation_unmatched _ _ Hm).
      pose proof (closestEncloserAt_unmatched _ _ _ _ Hce Hm) as Hne.
      by rewrite (optOutPath_at _ _ _ _ Hce Hne), Hn, Hopt.
Qed.
